(** * vscode-crs-status: usage acquisition, cache and status rendering

    A shallow embedding of [src/usage.ts], [src/statusBar.ts] and the
    extension entry point (the file that defines [refreshUsageData]).

    Conventions of the embedding.
    - A JavaScript [number] holding a cost is an exact rational ([Q]);
      the arithmetic the code performs on it ([+], [-], [*], [/], the
      comparisons, [Math.min], [Math.round], [toFixed]) is the exact one.
      Rounding of IEEE doubles, [NaN] and the infinities are outside the
      model.  Token counts and times (milliseconds) are integers ([Z]).
    - Remote responses have the shape their TypeScript interfaces declare:
      an optional field is an [option].
    - An [async] function is a computation in the monad [M] below: it
      reads the host environment (network, clock), updates the module
      state and either returns or throws.  Calls do not overlap. *)

From Stdlib Require Import ZArith QArith Qabs Qround Lqa Lia Bool.
From Stdlib Require Import String Ascii List Permutation.
Import ListNotations.

Set Implicit Arguments.

(** ** JavaScript values *)

Module JS.

(** What a [throw] or a rejected promise carries: an [Error] instance
    with its [message], or some other value. *)
Inductive Thrown : Type :=
| ErrorObj (message : string)
| NonError.

(** [err instanceof Error ? err.message : fallback] *)
Definition messageOr (fallback : string) (err : Thrown) : string :=
  match err with
  | ErrorObj m => m
  | NonError => fallback
  end.

(** Truthiness of a string: only the empty string is falsy. *)
Definition truthy (s : string) : bool :=
  match s with
  | EmptyString => false
  | String _ _ => true
  end.

(** [x || 0] on an optional number: [undefined] and [0] give [0]. *)
Definition orZeroQ (x : option Q) : Q :=
  match x with
  | Some q => if Qeq_bool q 0 then 0%Q else q
  | None => 0%Q
  end.

Definition orZeroZ (x : option Z) : Z :=
  match x with
  | Some z => z
  | None => 0%Z
  end.

(** [a < b] and [a > b] on numbers. *)
Definition ltb (a b : Q) : bool := negb (Qle_bool b a).
Definition gtb (a b : Q) : bool := ltb b a.
Definition leb (a b : Q) : bool := Qle_bool a b.

(** The character of a decimal digit. *)
Definition digitChar (d : Z) : string :=
  String (ascii_of_nat (48 + Z.to_nat d)) EmptyString.

(** The decimal digits of a natural number, most significant first;
    [fuel] bounds the number of digits. *)
Fixpoint digitsOf (fuel : nat) (n : Z) : string :=
  match fuel with
  | O => EmptyString
  | S fuel' =>
      if (n <? 10)%Z then digitChar n
      else (digitsOf fuel' (n / 10) ++ digitChar (n mod 10))%string
  end.

(** Decimal rendering of an integer, as template literals and
    [toString] give it. *)
Definition showZ (z : Z) : string :=
  if (z <? 0)%Z then ("-" ++ digitsOf (S (Z.to_nat (Z.log2 (- z)))) (- z))%string
  else digitsOf (S (Z.to_nat (Z.log2 z))) z.

(** [Math.min(a, b)] *)
Definition Math_min (a b : Q) : Q := if Qle_bool a b then a else b.

(** [Math.round(x)]: the nearest integer, the one towards plus infinity
    when two are equally near. *)
Definition Math_round (x : Q) : Z := Qfloor (x + (1 # 2)).

(** [s.repeat(count)] for an integral [count] that is not negative. *)
Fixpoint repeatString (s : string) (n : nat) : string :=
  match n with
  | O => EmptyString
  | S n' => (s ++ repeatString s n')%string
  end.

(** [s.repeat(count)]: a negative count is a [RangeError]. *)
Definition String_repeat (s : string) (count : Z) : Thrown + string :=
  if (count <? 0)%Z then
    inl (ErrorObj ("Invalid count value: " ++ showZ count))
  else inr (repeatString s (Z.to_nat count)).

Section NumberToString.

(** [Number::toString], the shortest decimal notation of a double.  The
    code reaches it only through [toFixed] on a magnitude of at least
    10^21, where the notation is exponential; it is left to the host. *)
Variable numberToString : Q -> string.

(** [x.toFixed(f)], after ECMA-262, Number.prototype.toFixed, steps 8
    to 12: [n] is the integer nearest to [|x| * 10^f], the larger of two
    equally near; its digits are padded with zeros to [f + 1] places and
    split by the decimal point. *)
Definition toFixed (x : Q) (f : nat) : string :=
  let s := if ltb x 0 then "-"%string else EmptyString in
  let x := if ltb x 0 then (- x)%Q else x in
  if Qle_bool (inject_Z (10 ^ 21)) x then (s ++ numberToString x)%string
  else
    let n := Qfloor (x * inject_Z (10 ^ Z.of_nat f) + (1 # 2)) in
    let m := showZ n in
    match f with
    | O => (s ++ m)%string
    | S _ =>
        let k := String.length m in
        let m := if (k <=? f)%nat then (repeatString "0" (f + 1 - k) ++ m)%string else m in
        let k := if (k <=? f)%nat then (f + 1)%nat else k in
        let a := substring 0 (k - f) m in
        let b := substring (k - f) f m in
        (s ++ a ++ "." ++ b)%string
    end.

End NumberToString.

End JS.

Import JS.

(** ** usage.ts *)

Module Usage.

Local Open Scope string_scope.
Local Open Scope Z_scope.

(** *** Type definitions *)

Record CostInfo : Type := { used : Q; total : Q }.

(** [DailyUsage], [MonthlyUsage] and [TotalUsage] are the same shape. *)
Record PeriodUsage : Type := { cost : CostInfo; tokens : Z }.

Record UsageInfo : Type := {
  daily : PeriodUsage;
  monthly : PeriodUsage;
  totalUsage : PeriodUsage;      (* the field [total] of [UsageInfo] *)
  lastUpdate : Z;
  error : option string
}.

(** *** API response types *)

Record ApiResponse (T : Type) : Type := { success : bool; data : option T }.

Record KeyIdData : Type := { id : string }.

Record UsageTotal : Type := { usage_allTokens : option Z }.
Record UsageField : Type := { usage_total : option UsageTotal }.

Record Limits : Type := {
  currentDailyCost : option Q;
  dailyCostLimit : option Q;
  currentTotalCost : option Q;
  totalCostLimit : option Q
}.

Record UserStatsData : Type := { usage : option UsageField; limits : Limits }.

Record Costs : Type := { costs_total : option Q }.
Record ModelStatsData : Type := { allTokens : option Z; costs : option Costs }.

Inductive Period : Type := PDaily | PMonthly.

(** *** The host: network and clock *)

(** The [Response] a resolved [fetch] gives: [ok], [status], and what
    [response.json()] settles to. *)
Record Response (T : Type) : Type := {
  ok : bool;
  status : Z;
  json : Thrown + ApiResponse T
}.

(** A [fetch] either rejects or resolves to a response. *)
Definition Fetched (T : Type) : Type := (Thrown + Response T)%type.

(** The three POST requests the module issues. *)
Inductive Request : Type :=
| PostKeyId (url : string) (apiKey : string)
| PostUserStats (url : string) (apiId : string)
| PostUserModelStats (url : string) (apiId : string) (period : Period).

Record Env : Type := {
  net_keyId : string -> string -> Fetched KeyIdData;
  net_userStats : string -> string -> Fetched UserStatsData;
  net_userModelStats : string -> string -> Period -> Fetched (list ModelStatsData);
  (** when both promises given to [Promise.all] reject, the one that
      rejects first decides: [true] when it is the user-stats one *)
  statsRejectsFirst : bool;
  (** [Date.now()] on entry of [getUsageInfo] *)
  dateNow : Z;
  (** [new Date()] once the awaited fetch has settled *)
  dateSettled : Z
}.

(** *** Module state *)

(** [cachedResult] and [lastFetchTime] are the module's variables;
    [sent] records the requests handed to [fetch], oldest first. *)
Record World : Type := {
  cachedResult : option UsageInfo;
  lastFetchTime : Z;
  sent : list Request
}.

Definition CACHE_TTL_MS : Z := 10 * 1000.

(** *** The monad of asynchronous functions *)

Definition M (A : Type) : Type := Env -> World -> (Thrown + A) * World.

Definition ret {A} (a : A) : M A := fun _ w => (inr a, w).

Definition throw {A} (e : Thrown) : M A := fun _ w => (inl e, w).

Definition bind {A B} (m : M A) (k : A -> M B) : M B :=
  fun env w =>
    match m env w with
    | (inr a, w') => k a env w'
    | (inl e, w') => (inl e, w')
    end.

(** [try { m } catch (err) { h err }] *)
Definition tryCatch {A} (m : M A) (h : Thrown -> M A) : M A :=
  fun env w =>
    match m env w with
    | (inr a, w') => (inr a, w')
    | (inl e, w') => h e env w'
    end.

(** Run a promise to its settlement without propagating a rejection. *)
Definition settle {A} (m : M A) : M (Thrown + A) :=
  fun env w => let (r, w') := m env w in (inr r, w').

Definition ask : M Env := fun env w => (inr env, w).
Definition getWorld : M World := fun _ w => (inr w, w).
Definition putWorld (w : World) : M unit := fun _ _ => (inr tt, w).

Definition liftSum {A} (r : Thrown + A) : M A :=
  match r with
  | inl e => throw e
  | inr a => ret a
  end.

Declare Scope js_scope.
Delimit Scope js_scope with js.
Notation "x <- m ;; k" := (bind m (fun x => k))
  (at level 61, m at next level, right associativity) : js_scope.
Notation "m ;;; k" := (bind m (fun _ => k))
  (at level 61, right associativity) : js_scope.
Local Open Scope js_scope.

(** [fetch(url, ...)]: the request is recorded, then the host answers. *)
Definition send {T} (rq : Request) (answer : Env -> Fetched T) : M (Response T) :=
  w <- getWorld ;;
  putWorld {| cachedResult := cachedResult w;
              lastFetchTime := lastFetchTime w;
              sent := sent w ++ [rq] |} ;;;
  env <- ask ;;
  liftSum (answer env).

(** [Promise.all([p, q])] for the two promises of [fetchUsageData]:
    both are started; the result rejects with the first rejection. *)
Definition promiseAll2 {A B} (p : M A) (q : M B) : M (A * B) :=
  rp <- settle p ;;
  rq <- settle q ;;
  env <- ask ;;
  match rp, rq with
  | inr a, inr b => ret (a, b)
  | inl e, inr _ => throw e
  | inr _, inl e => throw e
  | inl e1, inl e2 => throw (if statsRejectsFirst env then e1 else e2)
  end.

(** *** clearCache *)

Definition clearCache : M unit :=
  w <- getWorld ;;
  putWorld {| cachedResult := None; lastFetchTime := 0; sent := sent w |}.

(** *** getApiId *)

Definition getApiId (baseUrl apiKey : string) : M string :=
  let url := baseUrl ++ "/apiStats/api/get-key-id" in
  response <- send (PostKeyId url apiKey) (fun env => net_keyId env url apiKey) ;;
  if negb (ok response) then
    throw (ErrorObj ("Failed to get API ID: " ++ showZ (status response)))
  else
    d <- liftSum (json response) ;;
    match success d, data d with
    | true, Some k =>
        if truthy (id k) then ret (id k)
        else throw (ErrorObj "Invalid response from get-key-id API")
    | _, _ => throw (ErrorObj "Invalid response from get-key-id API")
    end.

(** *** getUserStats *)

Definition getUserStats (baseUrl apiId : string) : M UserStatsData :=
  let url := baseUrl ++ "/apiStats/api/user-stats" in
  response <- send (PostUserStats url apiId) (fun env => net_userStats env url apiId) ;;
  if negb (ok response) then
    throw (ErrorObj ("Failed to get user stats: " ++ showZ (status response)))
  else
    d <- liftSum (json response) ;;
    match success d, data d with
    | true, Some s => ret s
    | _, _ => throw (ErrorObj "Invalid response from user-stats API")
    end.

(** *** getUserModelStats *)

Definition getUserModelStats (baseUrl apiId : string) (period : Period)
  : M (list ModelStatsData) :=
  let url := baseUrl ++ "/apiStats/api/user-model-stats" in
  response <- send (PostUserModelStats url apiId period)
                   (fun env => net_userModelStats env url apiId period) ;;
  if negb (ok response) then
    throw (ErrorObj ("Failed to get user model stats: " ++ showZ (status response)))
  else
    d <- liftSum (json response) ;;
    match success d, data d with
    | true, Some l => ret l
    | _, _ => throw (ErrorObj "Invalid response from user-model-stats API")
    end.

(** *** fetchUsageData *)

(** The accumulator of the [reduce] over the model breakdown. *)
Record Totals : Type := { acc_tokens : Z; acc_cost : Q }.

Definition addModel (acc : Totals) (model : ModelStatsData) : Totals :=
  {| acc_tokens := acc_tokens acc + orZeroZ (allTokens model);
     acc_cost :=
       (acc_cost acc + orZeroQ (match costs model with
                               | Some c => costs_total c
                               | None => None
                               end))%Q |}.

Definition monthlyTotalsOf (monthlyModelStats : list ModelStatsData) : Totals :=
  fold_left addModel monthlyModelStats {| acc_tokens := 0; acc_cost := 0%Q |}.

(** [usage?.total?.allTokens || 0] *)
Definition accountTokens (u : option UsageField) : Z :=
  orZeroZ (match u with
           | Some f => match usage_total f with
                       | Some t => usage_allTokens t
                       | None => None
                       end
           | None => None
           end).

(** The object literal [fetchUsageData] returns. *)
Definition assemble (stats : UserStatsData) (monthlyModelStats : list ModelStatsData)
  (now : Z) : UsageInfo :=
  let monthlyTotals := monthlyTotalsOf monthlyModelStats in
  {| daily :=
       {| cost := {| used := orZeroQ (currentDailyCost (limits stats));
                     total := orZeroQ (dailyCostLimit (limits stats)) |};
          tokens := accountTokens (usage stats) |};
     monthly :=
       {| cost := {| used := acc_cost monthlyTotals; total := 0%Q |};
          tokens := acc_tokens monthlyTotals |};
     totalUsage :=
       {| cost := {| used := orZeroQ (currentTotalCost (limits stats));
                     total := orZeroQ (totalCostLimit (limits stats)) |};
          tokens := accountTokens (usage stats) |};
     lastUpdate := now;
     error := None |}.

Definition fetchUsageData (baseUrl apiKey : string) : M UsageInfo :=
  apiId <- getApiId baseUrl apiKey ;;
  both <- promiseAll2 (getUserStats baseUrl apiId)
                      (getUserModelStats baseUrl apiId PMonthly) ;;
  env <- ask ;;
  ret (assemble (fst both) (snd both) (dateSettled env)).

(** *** getUsageInfo *)

Definition withSoftError (c : UsageInfo) (now : Z) (msg : string) : UsageInfo :=
  {| daily := daily c;
     monthly := monthly c;
     totalUsage := totalUsage c;
     lastUpdate := now;
     error := Some msg |}.

Definition getUsageInfo (baseUrl apiKey : string) : M UsageInfo :=
  if negb (truthy baseUrl) || negb (truthy apiKey) then
    throw (ErrorObj "Not configured")
  else
    env <- ask ;;
    let now := dateNow env in
    let refetch :=
      tryCatch
        (result <- fetchUsageData baseUrl apiKey ;;
         w1 <- getWorld ;;
         putWorld {| cachedResult := Some result;
                     lastFetchTime := now;
                     sent := sent w1 |} ;;;
         ret result)
        (fun err =>
           w2 <- getWorld ;;
           match cachedResult w2 with
           | Some c =>
               ret (withSoftError c (dateSettled env) (messageOr "API Error" err))
           | None => throw err
           end) in
    w <- getWorld ;;
    match cachedResult w with
    | Some c => if now - lastFetchTime w <? CACHE_TTL_MS then ret c else refetch
    | None => refetch
    end.

(** *** Observations used by the statements *)

(** The world [w] after the requests [l] were handed to [fetch]. *)
Definition logged (w : World) (l : list Request) : World :=
  {| cachedResult := cachedResult w;
     lastFetchTime := lastFetchTime w;
     sent := sent w ++ l |}.

Definition keyIdUrl (baseUrl : string) : string :=
  baseUrl ++ "/apiStats/api/get-key-id".

(** Every run of [fetchUsageData] starts with one credential request:
    the number of such requests counts the round-trips to the service. *)
Definition isKeyId (rq : Request) : bool :=
  match rq with
  | PostKeyId _ _ => true
  | _ => false
  end.

Definition roundTrips (w : World) : nat :=
  List.length (filter isKeyId (sent w)).

End Usage.

(** ** statusBar.ts *)

Module StatusBar.

Import Usage.
Local Open Scope string_scope.

(** *** The status bar item *)

(** One period's block of the usage tooltip: the interpolated parts of
    the table that [updateTooltip] appends for it. *)
Record PeriodSection : Type := {
  title : string;
  headline : string;            (* the percentage text, or Unlimited *)
  barRow : option string;       (* the row holding the bar, when there is one *)
  costText : string;
  tokensText : string
}.

(** What [statusBarItem.tooltip] holds.  The usage tooltip is kept as its
    three blocks and the time of its footer; the fixed markup around
    them is not reproduced. *)
Inductive Tooltip : Type :=
| NoTooltip
| PlainText (s : string)
| Markdown (source : string)
| UsageTooltip (sections : list PeriodSection) (lastUpdated : Z).

Record StatusBarItem : Type := {
  text : string;
  tooltip : Tooltip;
  backgroundColor : option string;
  command : string
}.

(** The two settings [updateTooltip] reads. *)
Record DisplayConfig : Type := {
  showUsageInStatusBar : bool;
  showAmountInStatusBar : bool
}.

(** The item as the constructor leaves it. *)
Definition newStatusBarItem : StatusBarItem :=
  {| text := "$(credit-card)";
     tooltip := NoTooltip;
     backgroundColor := None;
     command := "crsStatus.refresh" |}.

Definition newline : string := String (ascii_of_nat 10) EmptyString.

Record ProgressBar : Type := { bar : string; barText : string }.

Record Limit : Type := { name : string; limitUsed : Q; limitTotal : Q }.

Record Constrained : Type := {
  selected : Limit;
  percentage : Q
}.

Section Host.

Variable numberToString : Q -> string.

(** *** formatCurrency *)

Definition formatCurrency (value : Q) : string :=
  "$" ++ toFixed numberToString value 2.

(** *** formatTokens *)

Definition formatTokens (tokens : Z) : string :=
  if (1000000 <=? tokens)%Z then
    toFixed numberToString (inject_Z tokens / inject_Z 1000000) 2 ++ "M"
  else if (1000 <=? tokens)%Z then
    toFixed numberToString (inject_Z tokens / inject_Z 1000) 2 ++ "K"
  else showZ tokens.

(** *** generateProgressBar *)

Definition filledGlyph : string := "▓".
Definition emptyGlyph : string := "░".

Definition generateProgressBar (used total : Q) (width : Z)
  : Thrown + option ProgressBar :=
  if leb total 0 then inr None
  else
    let percentage := Math_min (used / total) 1 in
    let filled := Math_round (percentage * inject_Z width) in
    let empty := (width - filled)%Z in
    match String_repeat filledGlyph filled with
    | inl e => inl e
    | inr f =>
        match String_repeat emptyGlyph empty with
        | inl e => inl e
        | inr e =>
            let percentText := toFixed numberToString (percentage * 100) 1 in
            inr (Some {| bar := f ++ e; barText := percentText ++ "%" |})
        end
    end.

(** *** getMostConstrainedLimit *)

(** The array [limits] after the three conditional [push]es. *)
Definition configuredLimits (usageInfo : UsageInfo) : list Limit :=
  let limits : list Limit := [] in
  let limits :=
    if gtb (total (cost (daily usageInfo))) 0 then
      (limits ++ [{| name := "Daily";
                    limitUsed := used (cost (daily usageInfo));
                    limitTotal := total (cost (daily usageInfo)) |}])%list
    else limits in
  let limits :=
    if gtb (total (cost (monthly usageInfo))) 0 then
      (limits ++ [{| name := "Monthly";
                    limitUsed := used (cost (monthly usageInfo));
                    limitTotal := total (cost (monthly usageInfo)) |}])%list
    else limits in
  let limits :=
    if gtb (total (cost (totalUsage usageInfo))) 0 then
      (limits ++ [{| name := "Total";
                    limitUsed := used (cost (totalUsage usageInfo));
                    limitTotal := total (cost (totalUsage usageInfo)) |}])%list
    else limits in
  limits.

Definition remainingOf (l : Limit) : Q := limitTotal l - limitUsed l.

(** One turn of the loop: the pair is [(mostConstrained, smallestRemaining)]. *)
Definition scanLimit (acc : Limit * Q) (l : Limit) : Limit * Q :=
  let remaining := remainingOf l in
  if ltb remaining (snd acc) then (l, remaining) else acc.

Definition getMostConstrainedLimit (usageInfo : UsageInfo) : option Constrained :=
  match configuredLimits usageInfo with
  | [] => None
  | first :: rest =>
      let mostConstrained := fst (fold_left scanLimit rest (first, remainingOf first)) in
      Some {| selected := mostConstrained;
              percentage := limitUsed mostConstrained / limitTotal mostConstrained * 100 |}
  end.

(** *** formatStatusBarText *)

Definition formatStatusBarText (usageInfo : UsageInfo) (showAmount : bool) : string :=
  match getMostConstrainedLimit usageInfo with
  | None => "$(credit-card)"
  | Some constrained =>
      let percentage := toFixed numberToString (percentage constrained) 1 in
      if negb showAmount then "$(credit-card) " ++ percentage ++ "%"
      else
        let used := toFixed numberToString (limitUsed (selected constrained)) 1 in
        let total := toFixed numberToString (limitTotal (selected constrained)) 1 in
        "$(credit-card) " ++ percentage ++ "% ($" ++ used ++ "/$" ++ total ++ ")"
  end.

(** *** updateTooltip *)

(** The block of one period.  The source repeats these lines for the
    daily, the monthly and the total usage. *)
Definition periodSection (title : string) (usage : PeriodUsage)
  : Thrown + PeriodSection :=
  let costText :=
    if gtb (total (cost usage)) 0 then
      formatCurrency (used (cost usage)) ++ " / " ++ formatCurrency (total (cost usage))
    else formatCurrency (used (cost usage)) in
  match generateProgressBar (used (cost usage)) (total (cost usage)) 25 with
  | inl e => inl e
  | inr progressBar =>
      inr {| title := title;
             headline := match progressBar with
                         | Some pb => barText pb
                         | None => "Unlimited"
                         end;
             barRow := option_map bar progressBar;
             costText := costText;
             tokensText := formatTokens (tokens usage) |}
  end.

(** [updateTooltip] writes [text] and [backgroundColor] first; a throw
    while the blocks are built leaves the tooltip as it was. *)
Definition updateTooltip (config : DisplayConfig) (usageInfo : UsageInfo)
  (item : StatusBarItem) : (Thrown + unit) * StatusBarItem :=
  let item :=
    {| text := if showUsageInStatusBar config
               then formatStatusBarText usageInfo (showAmountInStatusBar config)
               else "$(credit-card)";
       tooltip := tooltip item;
       backgroundColor := None;
       command := command item |} in
  match periodSection "Daily" (daily usageInfo) with
  | inl e => (inl e, item)
  | inr d =>
      match periodSection "Monthly" (monthly usageInfo) with
      | inl e => (inl e, item)
      | inr m =>
          match periodSection "Total" (totalUsage usageInfo) with
          | inl e => (inl e, item)
          | inr t =>
              (inr tt,
               {| text := text item;
                  tooltip := UsageTooltip [d; m; t] (lastUpdate usageInfo);
                  backgroundColor := backgroundColor item;
                  command := command item |})
          end
      end
  end.

End Host.

(** *** showLoading *)

Definition showLoading (item : StatusBarItem) : StatusBarItem :=
  {| text := "$(sync~spin)";
     tooltip := PlainText "Loading CRS usage data...";
     backgroundColor := None;
     command := command item |}.

(** *** showError *)

Definition showError (message : string) (item : StatusBarItem) : StatusBarItem :=
  {| text := "$(error) Error";
     tooltip := Markdown ("**CRS Status Error**" ++ newline ++ newline ++ message);
     backgroundColor := Some "statusBarItem.errorBackground";
     command := command item |}.

(** *** showConfigRequired *)

Definition showConfigRequired (item : StatusBarItem) : StatusBarItem :=
  {| text := "$(debug-disconnect) Invalid Config";
     tooltip := Markdown ("**CRS Status**" ++ newline ++ newline
                          ++ "Click to configure API settings");
     backgroundColor := Some "statusBarItem.errorBackground";
     command := "crsStatus.openSettings" |}.

(** *** showReady *)

Definition showReady (item : StatusBarItem) : StatusBarItem :=
  {| text := "$(credit-card)";
     tooltip := tooltip item;
     backgroundColor := None;
     command := "crsStatus.refresh" |}.

End StatusBar.

(** ** The extension entry point: refreshUsageData *)

Module Extension.

Import Usage StatusBar.
Local Open Scope string_scope.

(** The settings under [crsStatus]. *)
Record Config : Type := {
  baseUrl : string;
  apiKey : string;
  refreshInterval : Z;
  display : DisplayConfig
}.

(** The module variable [statusBarManager] (the manager is its item)
    together with the state of the usage module. *)
Record State : Type := {
  statusBarManager : option StatusBarItem;
  usageWorld : World
}.

(** *** isConfigured *)

Definition isConfigured (config : Config) : bool :=
  (0 <? String.length (baseUrl config))%nat && (0 <? String.length (apiKey config))%nat.

Section Host.

Variable numberToString : Q -> string.

(** *** refreshUsageData *)

Definition refreshUsageData (forceRefresh : bool) (config : Config) (env : Env)
  (st : State) : State :=
  match statusBarManager st with
  | None => st
  | Some item =>
      if negb (isConfigured config) then
        {| statusBarManager := Some (showConfigRequired item);
           usageWorld := usageWorld st |}
      else
        let w := if forceRefresh then snd (clearCache env (usageWorld st))
                 else usageWorld st in
        let item := showLoading item in
        let (r, w) := getUsageInfo (baseUrl config) (apiKey config) env w in
        let caught (error : Thrown) (item : StatusBarItem) :=
          showError (messageOr "Unknown error" error) item in
        let item :=
          match r with
          | inl error => caught error item
          | inr usageInfo =>
              match error usageInfo with
              | Some (String c m) => caught (ErrorObj (String c m)) item
              | _ =>
                  let item := showReady item in
                  match updateTooltip numberToString (display config) usageInfo item with
                  | (inl error, item) => caught error item
                  | (inr _, item) => item
                  end
              end
          end in
        {| statusBarManager := Some item; usageWorld := w |}
  end.

End Host.

(** *** The display states *)

(** The states of the display, read off the item: each [show] function
    writes a text of its own, and the Ready state is the one whose
    tooltip is the usage tooltip. *)
Inductive DisplayState : Type :=
| Unconfigured
| Loading
| Ready
| Error
| Initial.

Definition displayState (item : StatusBarItem) : DisplayState :=
  if String.eqb (text item) "$(debug-disconnect) Invalid Config" then Unconfigured
  else if String.eqb (text item) "$(sync~spin)" then Loading
  else if String.eqb (text item) "$(error) Error" then Error
  else
    match tooltip item with
    | UsageTooltip _ _ => Ready
    | _ => Initial
    end.

End Extension.

(** ** The extension entry point: timers, activation, deactivation *)

Module Lifecycle.

Import Usage StatusBar Extension.
Local Open Scope string_scope.

(** An interval the host keeps running for [setInterval]. *)
Record Timer : Type := { timerId : nat; intervalMs : Z }.

(** The module variables ([statusBarManager] with the usage module in
    [state], [refreshInterval] in [refreshIntervalVar]) and what the
    host holds for the extension: its live intervals, the next handle
    [setInterval] hands out, and the settings under [crsStatus]. *)
Record Runtime : Type := {
  state : State;
  refreshIntervalVar : option nat;
  timers : list Timer;
  nextTimerId : nat;
  settings : Config
}.

(** [clearInterval(handle)] *)
Definition clearInterval (handle : nat) (ts : list Timer) : list Timer :=
  filter (fun t => negb (Nat.eqb (timerId t) handle)) ts.

(** *** setupAutoRefresh *)

Definition setupAutoRefresh (r : Runtime) : Runtime :=
  let ts := match refreshIntervalVar r with
            | Some handle => clearInterval handle (timers r)
            | None => timers r
            end in
  let intervalSeconds := refreshInterval (settings r) in
  let intervalMs := (intervalSeconds * 1000)%Z in
  {| state := state r;
     refreshIntervalVar := Some (nextTimerId r);
     timers := (ts ++ [{| timerId := nextTimerId r; intervalMs := intervalMs |}])%list;
     nextTimerId := S (nextTimerId r);
     settings := settings r |}.

(** *** deactivate *)

Definition deactivate (r : Runtime) : Runtime :=
  {| state := {| statusBarManager := None; usageWorld := usageWorld (state r) |};
     refreshIntervalVar := None;
     timers := match refreshIntervalVar r with
               | Some handle => clearInterval handle (timers r)
               | None => timers r
               end;
     nextTimerId := nextTimerId r;
     settings := settings r |}.

Section Host.

Variable numberToString : Q -> string.

(** A call of [refreshUsageData] with the settings of the moment. *)
Definition refresh (forceRefresh : bool) (env : Env) (r : Runtime) : Runtime :=
  {| state := refreshUsageData numberToString forceRefresh (settings r) env (state r);
     refreshIntervalVar := refreshIntervalVar r;
     timers := timers r;
     nextTimerId := nextTimerId r;
     settings := settings r |}.

(** *** activate *)

Definition activate (env : Env) (r : Runtime) : Runtime :=
  let r :=
    {| state := {| statusBarManager := Some newStatusBarItem;
                   usageWorld := usageWorld (state r) |};
       refreshIntervalVar := refreshIntervalVar r;
       timers := timers r;
       nextTimerId := nextTimerId r;
       settings := settings r |} in
  if isConfigured (settings r) then refresh false env (setupAutoRefresh r)
  else
    {| state := {| statusBarManager := Some (showConfigRequired newStatusBarItem);
                   usageWorld := usageWorld (state r) |};
       refreshIntervalVar := refreshIntervalVar r;
       timers := timers r;
       nextTimerId := nextTimerId r;
       settings := settings r |}.

(** The handler of the command [crsStatus.refresh]. *)
Definition onRefreshCommand (env : Env) (r : Runtime) : Runtime :=
  refresh true env r.

(** The listener of [onDidChangeConfiguration]; [affects] is
    [event.affectsConfiguration('crsStatus')]. *)
Definition onDidChangeConfiguration (affects : bool) (env : Env) (r : Runtime)
  : Runtime :=
  if affects then refresh true env (setupAutoRefresh r) else r.

(** The callback given to [setInterval]. *)
Definition onInterval (env : Env) (r : Runtime) : Runtime :=
  refresh false env r.

(** What can happen to the extension.  A change of the settings under
    [crsStatus] carries the new settings; a change elsewhere carries
    none.  Each handler runs to its end before the next event is taken:
    a refresh whose requests are still pending when another event
    arrives is outside this model.  The handle of [setInterval] is an
    object of the host, hence truthy in [if (refreshInterval)]. *)
Inductive Event : Type :=
| Activate (env : Env)
| Deactivate
| RefreshCommand (env : Env)
| ConfigurationChanged (newSettings : option Config) (env : Env)
| IntervalElapsed (env : Env).

Definition step (r : Runtime) (ev : Event) : Runtime :=
  match ev with
  | Activate env => activate env r
  | Deactivate => deactivate r
  | RefreshCommand env => onRefreshCommand env r
  | ConfigurationChanged (Some s) env =>
      onDidChangeConfiguration true env
        {| state := state r;
           refreshIntervalVar := refreshIntervalVar r;
           timers := timers r;
           nextTimerId := nextTimerId r;
           settings := s |}
  | ConfigurationChanged None env => onDidChangeConfiguration false env r
  | IntervalElapsed env => onInterval env r
  end.

Definition run (events : list Event) (r : Runtime) : Runtime :=
  fold_left step events r.

End Host.

(** The extension before its activation. *)
Definition initialRuntime (s : Config) : Runtime :=
  {| state := {| statusBarManager := None;
                 usageWorld := {| cachedResult := None; lastFetchTime := 0; sent := [] |} |};
     refreshIntervalVar := None;
     timers := [];
     nextTimerId := 0;
     settings := s |}.

End Lifecycle.

(** ** Sample hosts and snapshots *)

Module Samples.

Import Usage StatusBar Extension.
Local Open Scope string_scope.

(** A host whose network is down: every [fetch] rejects. *)
Definition offline (now settled : Z) : Env :=
  {| net_keyId := fun _ _ => inl (ErrorObj "fetch failed");
     net_userStats := fun _ _ => inl (ErrorObj "fetch failed");
     net_userModelStats := fun _ _ _ => inl (ErrorObj "fetch failed");
     statsRejectsFirst := true;
     dateNow := now;
     dateSettled := settled |}.

Definition okResponse {T} (payload : T) : Fetched T :=
  inr {| ok := true; status := 200;
         json := inr {| success := true; data := Some payload |} |}.

(** A host whose service answers every request. *)
Definition online (stats : UserStatsData) (models : list ModelStatsData)
  (now settled : Z) : Env :=
  {| net_keyId := fun _ _ => okResponse {| id := "key-1" |};
     net_userStats := fun _ _ => okResponse stats;
     net_userModelStats := fun _ _ _ => okResponse models;
     statsRejectsFirst := true;
     dateNow := now;
     dateSettled := settled |}.

(** The figures of the spec's most-constrained-limit example. *)
Definition snapshot1 : UsageInfo :=
  {| daily := {| cost := {| used := 80; total := 100 |}; tokens := 5000 |};
     monthly := {| cost := {| used := 0; total := 0 |}; tokens := 0 |};
     totalUsage := {| cost := {| used := 450; total := 500 |}; tokens := 5000 |};
     lastUpdate := 1000;
     error := None |}.

(** The responses of the spec's end-to-end scenario. *)
Definition stats1 : UserStatsData :=
  {| usage := Some {| usage_total := Some {| usage_allTokens := Some 98765%Z |} |};
     limits := {| currentDailyCost := Some 7.5%Q;
                  dailyCostLimit := Some 10%Q;
                  currentTotalCost := Some 41.25%Q;
                  totalCostLimit := None |} |}.

Definition models1 : list ModelStatsData :=
  [ {| allTokens := Some 12000%Z; costs := Some {| costs_total := Some 3%Q |} |};
    {| allTokens := Some 345%Z; costs := Some {| costs_total := Some 0.2%Q |} |} ].

(** A user-stats payload whose daily cost is negative. *)
Definition statsNegative : UserStatsData :=
  {| usage := None;
     limits := {| currentDailyCost := Some (-5)%Q;
                  dailyCostLimit := Some 10%Q;
                  currentTotalCost := None;
                  totalCostLimit := None |} |}.

Definition emptyWorld : World :=
  {| cachedResult := None; lastFetchTime := 0; sent := [] |}.

(** A world whose cache holds [snapshot1], stored at time 1000. *)
Definition cachedWorld : World :=
  {| cachedResult := Some snapshot1; lastFetchTime := 1000; sent := [] |}.

Definition config1 : Config :=
  {| baseUrl := "https://crs.example";
     apiKey := "cr_key";
     refreshInterval := 60;
     display := {| showUsageInStatusBar := true; showAmountInStatusBar := true |} |}.



(** The state a refresh starts from when the cache holds [snapshot1]. *)
Definition cachedState : State :=
  {| statusBarManager := Some newStatusBarItem; usageWorld := cachedWorld |}.

(** A stand-in for the exponential notation of the host. *)
Definition exponential (x : Q) : string := "1e+21".

End Samples.

(** * Vocabulary of the statements *)

Module Vocabulary.

Import Usage StatusBar Extension.
Local Open Scope string_scope.

(** The world a successful refetch leaves. *)
Definition stored (w : World) (u : UsageInfo) (now : Z) (l : list Request) : World :=
  {| cachedResult := Some u; lastFetchTime := now; sent := (sent w ++ l)%list |}.

(** The cache holds nothing that is still fresh at [now]. *)
Definition stale (w : World) (now : Z) : Prop :=
  match cachedResult w with
  | Some _ => (CACHE_TTL_MS <= now - lastFetchTime w)%Z
  | None => True
  end.

(** The host answers a request with a successful envelope that carries
    [payload]. *)
Definition answers {T : Type} (reply : Fetched T) (payload : T) : Prop :=
  exists st, reply = inr {| ok := true; status := st;
                            json := inr {| success := true; data := Some payload |} |}.

(** A field that is absent counts as zero. *)
Definition valueOr0 (x : option Q) : Q :=
  match x with
  | Some q => q
  | None => 0
  end.

(** The cost and the token count of one entry of the model breakdown. *)
Definition modelCost (m : ModelStatsData) : Q :=
  match costs m with
  | Some c => valueOr0 (costs_total c)
  | None => 0
  end.

Definition modelTokens (m : ModelStatsData) : Z :=
  match allTokens m with
  | Some t => t
  | None => 0%Z
  end.

(** The account-level [allTokens] figure of a user-stats payload. *)
Definition accountAllTokens (stats : UserStatsData) : Z :=
  match usage stats with
  | Some {| usage_total := Some {| usage_allTokens := Some n |} |} => n
  | _ => 0%Z
  end.

(** Sums, written by recursion on the list. *)
Fixpoint sumQ (l : list Q) : Q :=
  match l with
  | [] => 0
  | x :: l' => x + sumQ l'
  end.

Fixpoint sumZ (l : list Z) : Z :=
  match l with
  | [] => 0%Z
  | x :: l' => (x + sumZ l')%Z
  end.

(** The invariant of the data model: no figure of the snapshot is
    negative. *)
Definition nonnegativePeriod (p : PeriodUsage) : Prop :=
  0 <= used (cost p) /\ 0 <= total (cost p) /\ (0 <= tokens p)%Z.

Definition nonnegative (u : UsageInfo) : Prop :=
  nonnegativePeriod (daily u) /\ nonnegativePeriod (monthly u)
  /\ nonnegativePeriod (totalUsage u).

(** The numeric fields a payload carries are not negative. *)
Definition nonnegativeStats (stats : UserStatsData) : Prop :=
  0 <= valueOr0 (currentDailyCost (limits stats)) /\
  0 <= valueOr0 (dailyCostLimit (limits stats)) /\
  0 <= valueOr0 (currentTotalCost (limits stats)) /\
  0 <= valueOr0 (totalCostLimit (limits stats)) /\
  (0 <= accountAllTokens stats)%Z.

Definition nonnegativeModel (m : ModelStatsData) : Prop :=
  0 <= modelCost m /\ (0 <= modelTokens m)%Z.

(** [s] is [x] written with one decimal place: a minus sign when [x] is
    negative, an integer part, the point and one digit; the number
    [i.d] read from the digits is [|x|] rounded to the nearest tenth
    (upwards from the middle). *)
Definition oneDecimalPlace (x : Q) (s : string) : Prop :=
  exists i d : Z,
    (0 <= i)%Z /\ (0 <= d <= 9)%Z /\
    (10 * i + d)%Z = Math_round (Qabs x * 10) /\
    Qabs (Qabs x - (inject_Z i + inject_Z d / 10)) <= 1 # 20 /\
    s = (if ltb x 0 then "-" else EmptyString) ++ showZ i ++ "." ++ showZ d.

(** The three periods in the order the code looks at them. *)
Definition periods (u : UsageInfo) : list Limit :=
  [ {| name := "Daily";
       limitUsed := used (cost (daily u));
       limitTotal := total (cost (daily u)) |};
    {| name := "Monthly";
       limitUsed := used (cost (monthly u));
       limitTotal := total (cost (monthly u)) |};
    {| name := "Total";
       limitUsed := used (cost (totalUsage u));
       limitTotal := total (cost (totalUsage u)) |} ].

(** A limit is configured when its total is positive. *)
Definition configured (l : Limit) : bool := gtb (limitTotal l) 0.

End Vocabulary.

(** * Vocabulary and samples of the further properties *)

Module Further.

Import Usage StatusBar Extension Samples Vocabulary.
Local Open Scope string_scope.

(** A host whose service refuses the credential with status 401. *)
Definition unauthorized (now settled : Z) : Env :=
  {| net_keyId := fun _ _ =>
       inr {| ok := false; status := 401;
              json := inr {| success := true; data := Some {| id := "key-1" |} |} |};
     net_userStats := fun _ _ => inl (ErrorObj "fetch failed");
     net_userModelStats := fun _ _ _ => inl (ErrorObj "fetch failed");
     statsRejectsFirst := true;
     dateNow := now;
     dateSettled := settled |}.

Definition snapshotOver : UsageInfo :=
  {| daily := {| cost := {| used := 150; total := 100 |}; tokens := 0 |};
     monthly := {| cost := {| used := 0; total := 0 |}; tokens := 0 |};
     totalUsage := {| cost := {| used := 0; total := 0 |}; tokens := 0 |};
     lastUpdate := 0;
     error := None |}.

(** The state of the usage module when it is loaded. *)
Definition initialWorld : World :=
  {| cachedResult := None; lastFetchTime := 0; sent := [] |}.

(** The calls a client of the usage module can make. *)
Inductive Call : Type :=
| CallClear (env : Env)
| CallGet (baseUrl apiKey : string) (env : Env).

Definition runCall (w : World) (c : Call) : World :=
  match c with
  | CallClear env => snd (clearCache env w)
  | CallGet baseUrl apiKey env => snd (getUsageInfo baseUrl apiKey env w)
  end.

Definition runCalls (calls : list Call) (w : World) : World :=
  fold_left runCall calls w.

(** [u] is a snapshot as [fetchUsageData] builds them. *)
Definition fetched (u : UsageInfo) : Prop :=
  exists stats models t, u = assemble stats models t.

(** What the cache holds between calls. *)
Definition cacheInvariant (w : World) : Prop :=
  match cachedResult w with
  | Some c => fetched c
  | None => lastFetchTime w = 0%Z
  end.

(** The three requests of a complete fetch. *)
Definition fullFetch (baseUrl apiKey apiId : string) : list Request :=
  [ PostKeyId (keyIdUrl baseUrl) apiKey;
    PostUserStats (baseUrl ++ "/apiStats/api/user-stats") apiId;
    PostUserModelStats (baseUrl ++ "/apiStats/api/user-model-stats") apiId PMonthly ].

(** The block of a period can be built: its limit is not positive, or
    [used] is not below minus one fiftieth of it. *)
Definition renderable (p : PeriodUsage) : Prop :=
  total (cost p) <= 0 \/ - total (cost p) <= used (cost p) * 50.

Definition renderableSnapshot (u : UsageInfo) : Prop :=
  renderable (daily u) /\ renderable (monthly u) /\ renderable (totalUsage u).


(** The host runs at most the interval the module remembers, with the
    period the settings ask for; the cache is as [cacheInvariant] says. *)
Definition runtimeInvariant (r : Lifecycle.Runtime) : Prop :=
  match Lifecycle.refreshIntervalVar r with
  | Some handle =>
      Lifecycle.timers r
      = [ {| Lifecycle.timerId := handle;
             Lifecycle.intervalMs := (refreshInterval (Lifecycle.settings r) * 1000)%Z |} ]
      /\ (handle < Lifecycle.nextTimerId r)%nat
  | None => Lifecycle.timers r = []
  end
  /\ cacheInvariant (usageWorld (Lifecycle.state r)).

(** [s] is [x] written with two decimal places. *)
Definition twoDecimalPlaces (x : Q) (s : string) : Prop :=
  exists i d1 d2 : Z,
    (0 <= i)%Z /\ (0 <= d1 <= 9)%Z /\ (0 <= d2 <= 9)%Z /\
    (100 * i + 10 * d1 + d2)%Z = Math_round (Qabs x * 100) /\
    Qabs (Qabs x - (inject_Z i + inject_Z d1 / 10 + inject_Z d2 / 100)) <= 1 # 200 /\
    s = (if ltb x 0 then "-" else EmptyString)
        ++ showZ i ++ "." ++ showZ d1 ++ showZ d2.

End Further.

(** * Properties *)

Import Usage StatusBar Extension Samples Vocabulary.

Unset Implicit Arguments.

(** ** The cache of usage.ts *)

Section UsageCache.

Local Open Scope string_scope.
Local Open Scope Z_scope.

Lemma logged_nil w : logged w [] = w.
Proof. destruct w; unfold logged; simpl. now rewrite app_nil_r. Qed.

Lemma logged_app w l1 l2 : logged (logged w l1) l2 = logged w (l1 ++ l2).
Proof. unfold logged; simpl. now rewrite app_assoc. Qed.

Lemma send_run T (rq : Request) (answer : Env -> Fetched T) env w :
  send rq answer env w = (answer env, logged w [rq]).
Proof.
  unfold send, bind, getWorld, putWorld, ask, liftSum, logged.
  destruct (answer env); reflexivity.
Qed.

Lemma getApiId_run baseUrl apiKey env :
  exists r, forall w,
    getApiId baseUrl apiKey env w = (r, logged w [PostKeyId (keyIdUrl baseUrl) apiKey]).
Proof.
  unfold getApiId, bind, keyIdUrl.
  destruct (net_keyId env (baseUrl ++ "/apiStats/api/get-key-id") apiKey)
    as [e | [o st [e | [[] [[i] | ]]]]] eqn:E;
    try destruct o; try destruct (truthy i) eqn:Ti;
    eexists; intro w; rewrite send_run, E; simpl; try rewrite Ti; reflexivity.
Qed.

Lemma getUserStats_run baseUrl apiId env :
  exists r, forall w,
    getUserStats baseUrl apiId env w
    = (r, logged w [PostUserStats (baseUrl ++ "/apiStats/api/user-stats") apiId]).
Proof.
  unfold getUserStats, bind.
  destruct (net_userStats env (baseUrl ++ "/apiStats/api/user-stats") apiId)
    as [e | [o st [e | [[] [s | ]]]]] eqn:E;
    try destruct o;
    eexists; intro w; rewrite send_run, E; simpl; reflexivity.
Qed.

Lemma getUserModelStats_run baseUrl apiId period env :
  exists r, forall w,
    getUserModelStats baseUrl apiId period env w
    = (r, logged w [PostUserModelStats (baseUrl ++ "/apiStats/api/user-model-stats")
                      apiId period]).
Proof.
  unfold getUserModelStats, bind.
  destruct (net_userModelStats env (baseUrl ++ "/apiStats/api/user-model-stats")
              apiId period)
    as [e | [o st [e | [[] [s | ]]]]] eqn:E;
    try destruct o;
    eexists; intro w; rewrite send_run, E; simpl; reflexivity.
Qed.

Lemma promiseAll2_run A B (p : M A) (q : M B) env rp lp rq lq :
  (forall w, p env w = (rp, logged w lp)) ->
  (forall w, q env w = (rq, logged w lq)) ->
  exists r, forall w, promiseAll2 p q env w = (r, logged w (lp ++ lq)).
Proof.
  intros Hp Hq. unfold promiseAll2, bind, settle, ask.
  destruct rp as [e1 | a], rq as [e2 | b];
    eexists; intro w; rewrite Hp, Hq, logged_app; simpl; reflexivity.
Qed.

(** [fetchUsageData] neither reads nor writes the cache; its outcome is
    decided by the host alone, and its first request is the credential
    one. *)
Lemma fetchUsageData_run baseUrl apiKey env :
  exists r l, forall w,
    fetchUsageData baseUrl apiKey env w
    = (r, logged w (PostKeyId (keyIdUrl baseUrl) apiKey :: l))
    /\ filter isKeyId l = [].
Proof.
  unfold fetchUsageData.
  destruct (getApiId_run baseUrl apiKey env) as [[e | apiId] Hid].
  - exists (inl e), []. intro w. unfold bind. rewrite Hid. split; reflexivity.
  - destruct (getUserStats_run baseUrl apiId env) as [rs Hs].
    destruct (getUserModelStats_run baseUrl apiId PMonthly env) as [rm Hm].
    destruct (promiseAll2_run _ _ _ _ env _ _ _ _ Hs Hm) as [[e | both] Hall].
    + eexists (inl e), _. intro w. unfold bind. rewrite Hid, Hall, logged_app.
      split; reflexivity.
    + eexists (inr _), _. intro w. unfold bind at 1. rewrite Hid.
      unfold bind at 1. rewrite Hall, logged_app. unfold bind, ask, ret.
      split; reflexivity.
Qed.

Lemma roundTrips_logged w baseUrl apiKey l :
  filter isKeyId l = [] ->
  roundTrips (logged w (PostKeyId (keyIdUrl baseUrl) apiKey :: l)) = S (roundTrips w).
Proof.
  intro Hl. unfold roundTrips, logged; simpl.
  rewrite filter_app; simpl. rewrite Hl, length_app; simpl. lia.
Qed.

Lemma getUsageInfo_hit baseUrl apiKey env w c :
  truthy baseUrl = true -> truthy apiKey = true ->
  cachedResult w = Some c ->
  dateNow env - lastFetchTime w < CACHE_TTL_MS ->
  getUsageInfo baseUrl apiKey env w = (inr c, w).
Proof.
  intros Hb Hk Hc Hfresh. unfold getUsageInfo. rewrite Hb, Hk. simpl.
  unfold bind, ask, getWorld. rewrite Hc.
  destruct (Z.ltb_spec (dateNow env - lastFetchTime w) CACHE_TTL_MS); [reflexivity | lia].
Qed.

Lemma getUsageInfo_refetch baseUrl apiKey env w r l :
  truthy baseUrl = true -> truthy apiKey = true ->
  stale w (dateNow env) ->
  fetchUsageData baseUrl apiKey env w = (r, logged w l) ->
  getUsageInfo baseUrl apiKey env w =
  match r with
  | inr u => (inr u, stored w u (dateNow env) l)
  | inl e =>
      match cachedResult w with
      | Some c =>
          (inr (withSoftError c (dateSettled env) (messageOr "API Error" e)), logged w l)
      | None => (inl e, logged w l)
      end
  end.
Proof.
  intros Hb Hk Hstale Hfetch. unfold getUsageInfo. rewrite Hb, Hk. simpl.
  unfold stale in Hstale.
  assert (Hre :
    tryCatch
      (bind (fetchUsageData baseUrl apiKey)
         (fun result => bind getWorld (fun w1 =>
            bind (putWorld {| cachedResult := Some result;
                              lastFetchTime := dateNow env;
                              sent := sent w1 |})
                 (fun _ => ret result))))
      (fun err => bind getWorld (fun w2 =>
         match cachedResult w2 with
         | Some c =>
             ret (withSoftError c (dateSettled env) (messageOr "API Error" err))
         | None => throw err
         end)) env w
    = match r with
      | inr u => (inr u, stored w u (dateNow env) l)
      | inl e =>
          match cachedResult w with
          | Some c =>
              (inr (withSoftError c (dateSettled env) (messageOr "API Error" e)),
               logged w l)
          | None => (inl e, logged w l)
          end
      end).
  { unfold tryCatch, bind. rewrite Hfetch. destruct r as [e | u]; simpl.
    - destruct (cachedResult w); reflexivity.
    - reflexivity. }
  unfold bind at 1. unfold ask. unfold bind at 1. unfold getWorld at 1.
  destruct (cachedResult w) as [c | ] eqn:Hc.
  - destruct (Z.ltb_spec (dateNow env - lastFetchTime w) CACHE_TTL_MS); [lia | ].
    rewrite Hre. reflexivity.
  - rewrite Hre. reflexivity.
Qed.


Lemma getUsageInfo_stale_roundTrip baseUrl apiKey env w :
  truthy baseUrl = true -> truthy apiKey = true ->
  stale w (dateNow env) ->
  roundTrips (snd (getUsageInfo baseUrl apiKey env w)) = S (roundTrips w).
Proof.
  intros Hb Hk Hst.
  destruct (fetchUsageData_run baseUrl apiKey env) as (r & l & Hrun).
  destruct (Hrun w) as [Hfetch Hl].
  rewrite (getUsageInfo_refetch _ _ _ _ _ _ Hb Hk Hst Hfetch).
  pose proof (roundTrips_logged w baseUrl apiKey l Hl) as Hrt.
  destruct r as [e | u]; [destruct (cachedResult w) | ]; simpl; exact Hrt.
Qed.

Lemma stale_cases w now :
  cachedResult w = None \/ CACHE_TTL_MS <= now - lastFetchTime w -> stale w now.
Proof.
  unfold stale. intros [H | H]; [now rewrite H | now destruct (cachedResult w)].
Qed.

(** C1. When the fetch fails and the cache holds a snapshot (one whose
    TTL has expired, or no fetch would be made), [getUsageInfo] does not
    throw: it returns the cached figures with [lastUpdate] set to the
    current time and [error] set to the error's message; the cached
    snapshot and its fetch time are left as they were, so a later call
    past the TTL goes to the network again. *)
Theorem getUsageInfo_fallback_keeps_cache :
  forall baseUrl apiKey env w c e,
    truthy baseUrl = true -> truthy apiKey = true ->
    cachedResult w = Some c ->
    CACHE_TTL_MS <= dateNow env - lastFetchTime w ->
    fst (fetchUsageData baseUrl apiKey env w) = inl e ->
    exists r w',
      getUsageInfo baseUrl apiKey env w = (inr r, w') /\
      daily r = daily c /\ monthly r = monthly c /\ totalUsage r = totalUsage c /\
      lastUpdate r = dateSettled env /\
      error r = Some (messageOr "API Error" e) /\
      (forall m, e = ErrorObj m -> error r = Some m) /\
      cachedResult w' = Some c /\ lastFetchTime w' = lastFetchTime w /\
      (forall env', CACHE_TTL_MS <= dateNow env' - lastFetchTime w' ->
         roundTrips (snd (getUsageInfo baseUrl apiKey env' w')) = S (roundTrips w')).
Proof.
  intros baseUrl apiKey env w c e Hb Hk Hc Hexp Hfail.
  destruct (fetchUsageData_run baseUrl apiKey env) as (r & l & Hrun).
  destruct (Hrun w) as [Hfetch Hl].
  rewrite Hfetch in Hfail; simpl in Hfail; subst r.
  assert (Hst : stale w (dateNow env)) by (apply stale_cases; now right).
  rewrite (getUsageInfo_refetch _ _ _ _ _ _ Hb Hk Hst Hfetch), Hc.
  eexists _, _. split; [reflexivity | ].
  repeat split; simpl; auto.
  - intros m ->. reflexivity.
  - intros env' Hexp'. apply getUsageInfo_stale_roundTrip; auto.
    apply stale_cases; now right.
Qed.

Lemma getUsageInfo_fallback_keeps_cache_witness :
  exists r w',
    getUsageInfo "https://crs.example" "cr_key" (offline 20000 20003) cachedWorld
    = (inr r, w') /\
    daily r = daily snapshot1 /\ monthly r = monthly snapshot1 /\
    totalUsage r = totalUsage snapshot1 /\
    lastUpdate r = 20003 /\
    error r = Some "fetch failed" /\
    (forall m, ErrorObj "fetch failed" = ErrorObj m -> error r = Some m) /\
    cachedResult w' = Some snapshot1 /\ lastFetchTime w' = 1000 /\
    (forall env', CACHE_TTL_MS <= dateNow env' - lastFetchTime w' ->
       roundTrips (snd (getUsageInfo "https://crs.example" "cr_key" env' w'))
       = S (roundTrips w')).
Proof.
  apply (getUsageInfo_fallback_keeps_cache
           "https://crs.example" "cr_key" (offline 20000 20003) cachedWorld
           snapshot1 (ErrorObj "fetch failed")).
  - reflexivity.
  - reflexivity.
  - reflexivity.
  - vm_compute. discriminate.
  - reflexivity.
Defined.



(** C6. [clearCache] empties the cache whatever its age, so the next
    call (with non-empty arguments) goes to the network at any time; and
    a call on an empty cache whose fetch fails throws that error, leaving
    the cache empty. *)
Theorem clearCache_then_failure_propagates :
  forall baseUrl apiKey,
    truthy baseUrl = true -> truthy apiKey = true ->
    (forall env0 w,
        clearCache env0 w
        = (inr tt, {| cachedResult := None; lastFetchTime := 0; sent := sent w |})) /\
    (forall env0 w env,
        roundTrips (snd (getUsageInfo baseUrl apiKey env (snd (clearCache env0 w))))
        = S (roundTrips w)) /\
    (forall env w e,
        cachedResult w = None ->
        fst (fetchUsageData baseUrl apiKey env w) = inl e ->
        fst (getUsageInfo baseUrl apiKey env w) = inl e /\
        cachedResult (snd (getUsageInfo baseUrl apiKey env w)) = None).
Proof.
  intros baseUrl apiKey Hb Hk. split; [reflexivity | split].
  - intros env0 w env.
    rewrite getUsageInfo_stale_roundTrip; auto.
    apply stale_cases. left. reflexivity.
  - intros env w e Hc Hfail.
    destruct (fetchUsageData_run baseUrl apiKey env) as (r & l & Hrun).
    destruct (Hrun w) as [Hfetch Hl].
    rewrite Hfetch in Hfail; simpl in Hfail; subst r.
    assert (Hst : stale w (dateNow env)) by (apply stale_cases; now left).
    rewrite (getUsageInfo_refetch _ _ _ _ _ _ Hb Hk Hst Hfetch), Hc.
    simpl. auto.
Qed.

Lemma clearCache_then_failure_propagates_witness :
  fst (getUsageInfo "https://crs.example" "cr_key" (offline 1001 1002)
         (snd (clearCache (offline 1001 1001) cachedWorld)))
  = inl (ErrorObj "fetch failed").
Proof.
  apply (clearCache_then_failure_propagates "https://crs.example" "cr_key"
           eq_refl eq_refl).
  - reflexivity.
  - reflexivity.
Defined.

(** C7. With an empty [baseUrl] or an empty [apiKey], [getUsageInfo]
    throws the error Not configured whatever the cache holds, sends
    nothing and leaves the state as it was. *)
Theorem getUsageInfo_not_configured :
  forall baseUrl apiKey env w,
    baseUrl = "" \/ apiKey = "" ->
    getUsageInfo baseUrl apiKey env w = (inl (ErrorObj "Not configured"), w).
Proof.
  intros baseUrl apiKey env w [-> | ->]; unfold getUsageInfo; simpl.
  - reflexivity.
  - destruct (truthy baseUrl); reflexivity.
Qed.

Lemma getUsageInfo_not_configured_witness :
  getUsageInfo "https://crs.example" "" (online stats1 models1 1500 1501) cachedWorld
  = (inl (ErrorObj "Not configured"), cachedWorld).
Proof.
  apply (getUsageInfo_not_configured
           "https://crs.example" "" (online stats1 models1 1500 1501) cachedWorld).
  right. reflexivity.
Defined.

End UsageCache.

(** ** The snapshot a successful fetch builds *)

Section Snapshot.

Local Open Scope string_scope.

Lemma orZeroQ_value x : orZeroQ x == valueOr0 x.
Proof.
  destruct x as [q | ]; simpl; [ | reflexivity].
  destruct (Qeq_bool q 0) eqn:E; [ | reflexivity].
  apply Qeq_bool_iff in E. now rewrite E.
Qed.

Lemma addModel_fold models acc :
  acc_cost (fold_left addModel models acc)
  == acc_cost acc + sumQ (map modelCost models)
  /\ acc_tokens (fold_left addModel models acc)
     = (acc_tokens acc + sumZ (map modelTokens models))%Z.
Proof.
  revert acc. induction models as [ | m models IH]; intro acc; simpl.
  - split; [ring | lia].
  - destruct (IH (addModel acc m)) as [IHc IHt]. rewrite IHc, IHt.
    unfold addModel; simpl. split.
    + assert (H : orZeroQ match costs m with
                          | Some c => costs_total c
                          | None => None
                          end == modelCost m).
      { rewrite orZeroQ_value. unfold modelCost. destruct (costs m); reflexivity. }
      rewrite H. ring.
    + unfold orZeroZ, modelTokens. destruct (allTokens m); lia.
Qed.

Lemma monthlyTotalsOf_sums models :
  acc_cost (monthlyTotalsOf models) == sumQ (map modelCost models)
  /\ acc_tokens (monthlyTotalsOf models) = sumZ (map modelTokens models).
Proof.
  unfold monthlyTotalsOf. destruct (addModel_fold models {| acc_tokens := 0; acc_cost := 0 |})
    as [Hc Ht].
  rewrite Hc, Ht; simpl. split; [ring | lia].
Qed.



Lemma accountTokens_spec stats : accountTokens (usage stats) = accountAllTokens stats.
Proof.
  unfold accountTokens, accountAllTokens.
  destruct (usage stats) as [[[[[n | ]] | ]] | ]; reflexivity.
Qed.

(** *** What a successful run of each request function tells *)

Lemma getApiId_success baseUrl apiKey env w apiId w' :
  getApiId baseUrl apiKey env w = (inr apiId, w') ->
  answers (net_keyId env (keyIdUrl baseUrl) apiKey) {| id := apiId |}.
Proof.
  unfold getApiId, bind, keyIdUrl. rewrite send_run.
  destruct (net_keyId env (baseUrl ++ "/apiStats/api/get-key-id") apiKey)
    as [e | [o st [e | [[] [[i] | ]]]]]; simpl;
    try destruct o; simpl; try destruct (truthy i); simpl;
    intro H; inversion H; subst.
  now exists st.
Qed.

Lemma getUserStats_success baseUrl apiId env w stats w' :
  getUserStats baseUrl apiId env w = (inr stats, w') ->
  answers (net_userStats env (baseUrl ++ "/apiStats/api/user-stats") apiId) stats.
Proof.
  unfold getUserStats, bind. rewrite send_run.
  destruct (net_userStats env (baseUrl ++ "/apiStats/api/user-stats") apiId)
    as [e | [o st [e | [[] [s | ]]]]]; simpl;
    try destruct o; simpl; intro H; inversion H; subst.
  now exists st.
Qed.

Lemma getUserModelStats_success baseUrl apiId period env w models w' :
  getUserModelStats baseUrl apiId period env w = (inr models, w') ->
  answers (net_userModelStats env (baseUrl ++ "/apiStats/api/user-model-stats")
             apiId period) models.
Proof.
  unfold getUserModelStats, bind. rewrite send_run.
  destruct (net_userModelStats env (baseUrl ++ "/apiStats/api/user-model-stats")
              apiId period)
    as [e | [o st [e | [[] [s | ]]]]]; simpl;
    try destruct o; simpl; intro H; inversion H; subst.
  now exists st.
Qed.

Lemma promiseAll2_success A B (p : M A) (q : M B) env w a b w' :
  promiseAll2 p q env w = (inr (a, b), w') ->
  exists w1, p env w = (inr a, w1) /\ q env w1 = (inr b, w').
Proof.
  unfold promiseAll2, bind, settle, ask.
  destruct (p env w) as [[e1 | a0] w1] eqn:Hp.
  - destruct (q env w1) as [[e2 | b0] w2]; simpl; intro H; inversion H.
  - destruct (q env w1) as [[e2 | b0] w2] eqn:Hq; simpl; intro H; inversion H; subst.
    exists w1. split; [reflexivity | exact Hq].
Qed.

Lemma fetchUsageData_success baseUrl apiKey env w r w' :
  fetchUsageData baseUrl apiKey env w = (inr r, w') ->
  exists apiId stats models,
    answers (net_keyId env (keyIdUrl baseUrl) apiKey) {| id := apiId |} /\
    answers (net_userStats env (baseUrl ++ "/apiStats/api/user-stats") apiId) stats /\
    answers (net_userModelStats env (baseUrl ++ "/apiStats/api/user-model-stats")
               apiId PMonthly) models /\
    r = assemble stats models (dateSettled env).
Proof.
  unfold fetchUsageData. unfold bind at 1.
  destruct (getApiId baseUrl apiKey env w) as [[e | apiId] w1] eqn:Hid;
    [intro H; inversion H | ].
  unfold bind at 1.
  destruct (promiseAll2 (getUserStats baseUrl apiId)
              (getUserModelStats baseUrl apiId PMonthly) env w1)
    as [[e | [stats models]] w2] eqn:Hall; [intro H; inversion H | ].
  unfold bind, ask, ret; simpl. intro H; inversion H; subst.
  apply promiseAll2_success in Hall. destruct Hall as (w3 & Hs & Hm).
  exists apiId, stats, models. repeat split.
  - eapply getApiId_success; eauto.
  - eapply getUserStats_success; eauto.
  - eapply getUserModelStats_success; eauto.
Qed.



(** *** Non-negative figures *)

Lemma sumQ_nonneg l : Forall (fun x => 0 <= x) l -> 0 <= sumQ l.
Proof.
  induction 1; simpl; [apply Qle_refl | lra].
Qed.

Lemma sumZ_nonneg l : Forall (fun x => (0 <= x)%Z) l -> (0 <= sumZ l)%Z.
Proof.
  induction 1; simpl; lia.
Qed.

(** C9, as stated, fails: a payload with a negative cost passes through
    [x || 0] unchanged and gives a snapshot with a negative figure. *)
Lemma fetchUsageData_nonnegative_counterexample :
  ~ (forall baseUrl apiKey env w r w',
        fetchUsageData baseUrl apiKey env w = (inr r, w') -> nonnegative r).
Proof.
  intro H.
  specialize (H "https://crs.example" "cr_key"
                (online statsNegative models1 1500 1501) emptyWorld _ _ eq_refl).
  destruct H as [[Hused _] _]. vm_compute in Hused. apply Hused. reflexivity.
Qed.

(** C9, amended. When no numeric field of the two payloads is negative
    (an absent field counting as 0), no figure of the snapshot of a
    successful fetch is negative. *)
Theorem fetchUsageData_nonnegative :
  forall baseUrl apiKey env w r w',
    (forall url apiId stats,
        answers (net_userStats env url apiId) stats -> nonnegativeStats stats) ->
    (forall url apiId period models,
        answers (net_userModelStats env url apiId period) models ->
        Forall nonnegativeModel models) ->
    fetchUsageData baseUrl apiKey env w = (inr r, w') ->
    nonnegative r.
Proof.
  intros baseUrl apiKey env w r w' Hstats Hmodels Hfetch.
  destruct (fetchUsageData_success _ _ _ _ _ _ Hfetch)
    as (apiId & stats & models & _ & Hs & Hm & ->).
  apply Hstats in Hs. apply Hmodels in Hm.
  destruct Hs as (H1 & H2 & H3 & H4 & H5).
  destruct (monthlyTotalsOf_sums models) as [Hc Ht].
  unfold nonnegative, nonnegativePeriod; simpl.
  rewrite !orZeroQ_value, accountTokens_spec, Hc, Ht.
  repeat split; auto; try apply Qle_refl.
  - apply sumQ_nonneg. apply Forall_map.
    eapply Forall_impl; [ | exact Hm]. now intros m [Hm1 _].
  - apply sumZ_nonneg. apply Forall_map.
    eapply Forall_impl; [ | exact Hm]. now intros m [_ Hm2].
Qed.

Lemma fetchUsageData_nonnegative_witness :
  nonnegative (assemble stats1 models1 1501).
Proof.
  apply (fetchUsageData_nonnegative
           "https://crs.example" "cr_key" (online stats1 models1 1500 1501) emptyWorld
           (assemble stats1 models1 1501)
           (logged emptyWorld
              [PostKeyId "https://crs.example/apiStats/api/get-key-id" "cr_key";
               PostUserStats "https://crs.example/apiStats/api/user-stats" "key-1";
               PostUserModelStats "https://crs.example/apiStats/api/user-model-stats"
                 "key-1" PMonthly])).
  - intros url apiId stats [st H]. inversion H; subst.
    unfold nonnegativeStats; simpl. repeat split; try discriminate.
  - intros url apiId period models [st H]. inversion H; subst.
    repeat constructor; simpl; discriminate.
  - reflexivity.
Defined.

End Snapshot.

(** ** Numbers and their renderings *)

Section Rendering.

Local Open Scope string_scope.

Lemma ltb_lt a b : ltb a b = true <-> a < b.
Proof.
  unfold ltb. rewrite negb_true_iff. split.
  - intro H. apply Qnot_le_lt. intro Hle.
    apply Qle_bool_iff in Hle. congruence.
  - intro H. destruct (Qle_bool b a) eqn:E; [ | reflexivity].
    apply Qle_bool_iff in E. lra.
Qed.

Lemma ltb_ge a b : ltb a b = false <-> b <= a.
Proof.
  unfold ltb. rewrite negb_false_iff. apply Qle_bool_iff.
Qed.

Lemma gtb_gt a b : gtb a b = true <-> b < a.
Proof. apply ltb_lt. Qed.

Lemma gtb_le a b : gtb a b = false <-> a <= b.
Proof. apply ltb_ge. Qed.

Lemma Qle_bool_false a b : Qle_bool a b = false <-> b < a.
Proof.
  split.
  - intro H. apply Qnot_le_lt. intro Hle. apply Qle_bool_iff in Hle. congruence.
  - intro H. destruct (Qle_bool a b) eqn:E; [ | reflexivity].
    apply Qle_bool_iff in E. lra.
Qed.

(** *** Strings *)

Lemma length_append (a b : string) :
  String.length (a ++ b) = (String.length a + String.length b)%nat.
Proof. induction a; simpl; auto. Qed.

Lemma substring_all (a : string) : substring 0 (String.length a) a = a.
Proof. induction a; simpl; [reflexivity | now rewrite IHa]. Qed.

Lemma substring_prefix (a b : string) :
  substring 0 (String.length a) (a ++ b) = a.
Proof.
  induction a; simpl.
  - destruct b; reflexivity.
  - now rewrite IHa.
Qed.

Lemma substring_suffix (a b : string) :
  substring (String.length a) (String.length b) (a ++ b) = b.
Proof.
  induction a; simpl; [apply substring_all | exact IHa].
Qed.

Lemma length_repeatString (s : string) n :
  String.length (repeatString s n) = (n * String.length s)%nat.
Proof.
  induction n; simpl; [reflexivity | ].
  now rewrite length_append, IHn.
Qed.

(** *** Decimal digits *)

Lemma length_digitChar d : String.length (digitChar d) = 1%nat.
Proof. reflexivity. Qed.

Lemma digitsOf_enough f1 : forall f2 n,
  (1 <= f1)%nat -> (1 <= f2)%nat ->
  (0 <= n < 2 ^ Z.of_nat f1)%Z -> (0 <= n < 2 ^ Z.of_nat f2)%Z ->
  digitsOf f1 n = digitsOf f2 n.
Proof.
  induction f1 as [ | f1 IH]; intros f2 n H1 H2 Hn1 Hn2; [lia | ].
  destruct f2 as [ | f2]; [lia | ]. simpl.
  destruct (Z.ltb_spec n 10) as [Hlt | Hge]; [reflexivity | ].
  f_equal.
  rewrite Nat2Z.inj_succ, Z.pow_succ_r in Hn1, Hn2 by lia.
  assert (Hq : (0 <= n / 10 < n / 2 + 1)%Z).
  { split; [apply Z.div_pos; lia | ].
    assert (n / 10 <= n / 2)%Z by (apply Z.div_le_compat_l; lia). lia. }
  assert (Hh1 : (n / 2 < 2 ^ Z.of_nat f1)%Z) by (apply Z.div_lt_upper_bound; lia).
  assert (Hh2 : (n / 2 < 2 ^ Z.of_nat f2)%Z) by (apply Z.div_lt_upper_bound; lia).
  apply IH; try lia.
  - destruct f1; [simpl in Hn1; lia | lia].
  - destruct f2; [simpl in Hn2; lia | lia].
Qed.

Lemma log2_fuel n :
  (0 <= n)%Z -> (0 <= n < 2 ^ Z.of_nat (S (Z.to_nat (Z.log2 n))))%Z.
Proof.
  intro Hn. split; [exact Hn | ].
  rewrite Nat2Z.inj_succ, Z2Nat.id by apply Z.log2_nonneg.
  destruct (Z.eq_dec n 0) as [-> | Hnz]; [reflexivity | ].
  apply Z.log2_spec. lia.
Qed.

Lemma showZ_digit n : (0 <= n < 10)%Z -> showZ n = digitChar n.
Proof.
  intros [H0 H10]. unfold showZ.
  destruct (Z.ltb_spec n 0); [lia | ]. simpl.
  destruct (Z.ltb_spec n 10); [reflexivity | lia].
Qed.

Lemma showZ_step n :
  (10 <= n)%Z -> showZ n = showZ (n / 10) ++ digitChar (n mod 10).
Proof.
  intro Hn. unfold showZ.
  assert (Hq : (1 <= n / 10)%Z) by (apply Z.div_le_lower_bound; lia).
  destruct (Z.ltb_spec n 0); [lia | ].
  destruct (Z.ltb_spec (n / 10) 0); [lia | ].
  remember (S (Z.to_nat (Z.log2 (n / 10)))) as f2 eqn:Ef2.
  simpl. destruct (Z.ltb_spec n 10); [lia | ]. f_equal. subst f2.
  pose proof (log2_fuel n ltac:(lia)) as Hf.
  rewrite Nat2Z.inj_succ, Z.pow_succ_r in Hf by lia.
  assert (Hlog : (1 <= Z.log2 n)%Z) by (apply Z.log2_le_pow2; simpl; lia).
  apply digitsOf_enough.
  - apply Nat2Z.inj_le. rewrite Z2Nat.id; lia.
  - lia.
  - split; [lia | ].
    assert (n / 10 <= n / 2)%Z by (apply Z.div_le_compat_l; lia).
    assert (n / 2 < 2 ^ Z.of_nat (Z.to_nat (Z.log2 n)))%Z
      by (apply Z.div_lt_upper_bound; lia).
    lia.
  - apply log2_fuel. lia.
Qed.

Lemma length_showZ_pos n : (0 <= n)%Z -> (1 <= String.length (showZ n))%nat.
Proof.
  intro Hn. destruct (Z.lt_ge_cases n 10) as [Hlt | Hge].
  - rewrite showZ_digit by lia. simpl. lia.
  - rewrite showZ_step, length_append by lia. simpl. lia.
Qed.

(** *** toFixed with one fraction digit *)

Lemma Math_round_nonneg x : 0 <= x -> (0 <= Math_round x)%Z.
Proof.
  intro H. unfold Math_round.
  change 0%Z with (Qfloor 0). apply Qfloor_resp_le. lra.
Qed.

Lemma Math_round_near x :
  Qabs (x - inject_Z (Math_round x)) <= 1 # 2.
Proof.
  unfold Math_round.
  pose proof (Qfloor_le (x + (1 # 2))) as Hlo.
  pose proof (Qlt_floor (x + (1 # 2))) as Hhi.
  rewrite inject_Z_plus in Hhi. change (inject_Z 1) with 1 in Hhi.
  apply Qabs_Qle_condition. split; lra.
Qed.

Lemma toFixed_one_decimal numberToString x :
  Qabs x < inject_Z (10 ^ 21) ->
  oneDecimalPlace x (toFixed numberToString x 1).
Proof.
  intros Hbig. unfold toFixed.
  set (y := if ltb x 0 then - x else x).
  assert (Hy : y == Qabs x).
  { subst y. destruct (ltb x 0) eqn:E.
    - apply ltb_lt in E. symmetry. apply Qabs_neg. lra.
    - apply ltb_ge in E. symmetry. now apply Qabs_pos. }
  assert (H0 : 0 <= y) by (rewrite Hy; apply Qabs_nonneg).
  assert (Hb : Qle_bool (inject_Z (10 ^ 21)) y = false)
    by (apply Qle_bool_false; now rewrite Hy).
  rewrite Hb.
  change (Qfloor (y * inject_Z (10 ^ Z.of_nat 1) + (1 # 2))) with (Math_round (y * 10)).
  assert (Hr : Math_round (y * 10) = Math_round (Qabs x * 10)).
  { unfold Math_round. apply Qfloor_comp. now rewrite Hy. }
  assert (Hn : (0 <= Math_round (y * 10))%Z) by (apply Math_round_nonneg; lra).
  pose proof (Math_round_near (y * 10)) as Hnear.
  set (n := Math_round (y * 10)) in *.
  exists (n / 10)%Z, (n mod 10)%Z.
  pose proof (Z.mod_pos_bound n 10 ltac:(lia)) as Hd.
  pose proof (Z.div_mod n 10 ltac:(lia)) as Hdm.
  split; [apply Z.div_pos; lia | ]. split; [lia | ]. split; [lia | ]. split.
  - rewrite Hdm, inject_Z_plus, inject_Z_mult in Hnear.
    change (inject_Z 10) with 10 in Hnear.
    apply Qabs_Qle_condition in Hnear. apply Qabs_Qle_condition.
    rewrite <- Hy. clearbody y n.
    generalize dependent (inject_Z (n / 10)). generalize dependent (inject_Z (n mod 10)).
    intros b a Hab. unfold Qdiv. change (/ 10) with (1 # 10). split; lra.
  - cbv zeta. f_equal. rewrite (showZ_digit (n mod 10)) by lia.
    destruct (Z.lt_ge_cases n 10) as [Hlt | Hge].
    + rewrite Z.div_small, Z.mod_small by lia.
      rewrite (showZ_digit n) by lia. reflexivity.
    + rewrite (showZ_step n Hge), length_append, length_digitChar.
      pose proof (length_showZ_pos (n / 10) ltac:(apply Z.div_pos; lia)) as Hlen.
      destruct (Nat.leb_spec (String.length (showZ (n / 10)) + 1) 1) as [Hk | Hk];
        [lia | ].
      replace (String.length (showZ (n / 10)) + 1 - 1)%nat
        with (String.length (showZ (n / 10))) by lia.
      rewrite substring_prefix.
      change 1%nat with (String.length (digitChar (n mod 10))) at 1.
      rewrite substring_suffix. reflexivity.
Qed.

(** *** generateProgressBar *)


Lemma Math_min_over a : 1 <= a -> Math_min a 1 == 1.
Proof.
  intro Ha. unfold Math_min. destruct (Qle_bool a 1) eqn:E; [ | reflexivity].
  apply Qle_bool_iff in E. lra.
Qed.






End Rendering.

(** ** The most constrained limit and the compact text *)

Section Selection.

Local Open Scope string_scope.

Lemma configuredLimits_filter u : configuredLimits u = filter configured (periods u).
Proof.
  unfold configuredLimits, periods, configured; simpl.
  destruct (gtb (total (cost (daily u))) 0), (gtb (total (cost (monthly u))) 0),
    (gtb (total (cost (totalUsage u))) 0); reflexivity.
Qed.

(** The loop keeps the first of the limits with the least remaining
    amount: those before it have strictly more left, those after it at
    least as much. *)
Lemma scanLimit_first_least rest : forall before best after,
  (forall p, In p before -> remainingOf best < remainingOf p) ->
  (forall p, In p after -> remainingOf best <= remainingOf p) ->
  exists before' best' after',
    (before ++ best :: after ++ rest)%list = (before' ++ best' :: after')%list /\
    fst (fold_left scanLimit rest (best, remainingOf best)) = best' /\
    (forall p, In p before' -> remainingOf best' < remainingOf p) /\
    (forall p, In p after' -> remainingOf best' <= remainingOf p).
Proof.
  induction rest as [ | l rest IH]; intros before best after Hb Ha.
  - exists before, best, after. rewrite app_nil_r. auto.
  - simpl. unfold scanLimit at 2. simpl.
    destruct (ltb (remainingOf l) (remainingOf best)) eqn:E.
    + apply ltb_lt in E.
      destruct (IH (before ++ best :: after)%list l []) as (b' & x & a' & Heq & Hx & Hb' & Ha').
      * intros p Hp. apply in_app_or in Hp. destruct Hp as [Hp | [<- | Hp]].
        -- specialize (Hb p Hp). lra.
        -- exact E.
        -- specialize (Ha p Hp). lra.
      * intros p [].
      * exists b', x, a'. split; [ | auto].
        rewrite <- Heq. simpl. rewrite <- app_assoc. reflexivity.
    + apply ltb_ge in E.
      destruct (IH before best (after ++ [l])%list) as (b' & x & a' & Heq & Hx & Hb' & Ha').
      * exact Hb.
      * intros p Hp. apply in_app_or in Hp. destruct Hp as [Hp | [<- | []]]; auto.
      * exists b', x, a'. split; [ | auto].
        rewrite <- Heq. rewrite <- app_assoc. reflexivity.
Qed.

Lemma getMostConstrainedLimit_Some u c :
  getMostConstrainedLimit u = Some c ->
  exists before after,
    filter configured (periods u) = (before ++ selected c :: after)%list /\
    0 < limitTotal (selected c) /\
    (forall p, In p before -> remainingOf (selected c) < remainingOf p) /\
    (forall p, In p after -> remainingOf (selected c) <= remainingOf p) /\
    percentage c = limitUsed (selected c) / limitTotal (selected c) * 100.
Proof.
  unfold getMostConstrainedLimit. rewrite configuredLimits_filter.
  destruct (filter configured (periods u)) as [ | first rest] eqn:Hf; [discriminate | ].
  intro H. inversion H; subst c; clear H. simpl.
  destruct (scanLimit_first_least rest [] first [])
    as (before & best & after & Heq & Hbest & Hb & Ha).
  - intros p [].
  - intros p [].
  - simpl in Heq. rewrite Hbest. exists before, after.
    split; [exact Heq | ]. split; [ | auto].
    assert (Hin : In best (filter configured (periods u))).
    { rewrite Hf, Heq. apply in_or_app. right. now left. }
    apply filter_In in Hin. destruct Hin as [_ Hc]. now apply gtb_gt in Hc.
Qed.




(** C5, as stated, fails: for the daily cost 7.5 of 10 the compact text
    carries the icon, and the amounts have one decimal place. *)
Lemma formatStatusBarText_counterexample :
  formatStatusBarText exponential (assemble stats1 models1 1501) true
  = "$(credit-card) 75.0% ($7.5/$10.0)"
  /\ formatStatusBarText exponential (assemble stats1 models1 1501) true
     <> "75.0% ($7.50/$10.00)"
  /\ formatStatusBarText exponential (assemble stats1 models1 1501) true
     <> "$(credit-card) 75.0% ($7.50/$10.00)".
Proof.
  split; [reflexivity | split; discriminate].
Qed.

(** C5, amended. When a most constrained limit exists and both the
    percentage and the amounts are shown, the compact text is the icon,
    the percentage of that limit with one decimal place, and its used
    and total amounts, each with a dollar sign and one decimal place
    (for magnitudes below 10^21, where [toFixed] writes plain decimals);
    for the daily cost 7.5 of 10 it is
    [$(credit-card) 75.0% ($7.5/$10.0)]. *)
Theorem formatStatusBarText_one_decimal :
  forall (numberToString : Q -> string) (u : UsageInfo) (c : Constrained),
    getMostConstrainedLimit u = Some c ->
    Qabs (percentage c) < inject_Z (10 ^ 21) ->
    Qabs (limitUsed (selected c)) < inject_Z (10 ^ 21) ->
    limitTotal (selected c) < inject_Z (10 ^ 21) ->
    (exists p a b,
        oneDecimalPlace (percentage c) p /\
        oneDecimalPlace (limitUsed (selected c)) a /\
        oneDecimalPlace (limitTotal (selected c)) b /\
        formatStatusBarText numberToString u true
        = "$(credit-card) " ++ p ++ "% ($" ++ a ++ "/$" ++ b ++ ")") /\
    formatStatusBarText numberToString (assemble stats1 models1 1501) true
    = "$(credit-card) 75.0% ($7.5/$10.0)".
Proof.
  intros numberToString u c Hc Hp21 Hu21 Ht21.
  split; [ | reflexivity].
  destruct (getMostConstrainedLimit_Some u c Hc)
    as (before & after & _ & Htotal & _ & _ & _).
  exists (toFixed numberToString (percentage c) 1),
    (toFixed numberToString (limitUsed (selected c)) 1),
    (toFixed numberToString (limitTotal (selected c)) 1).
  repeat split; try (apply toFixed_one_decimal; assumption).
  - apply toFixed_one_decimal. rewrite Qabs_pos by lra. exact Ht21.
  - unfold formatStatusBarText. rewrite Hc. reflexivity.
Qed.

Lemma formatStatusBarText_one_decimal_witness :
  (exists p a b,
      oneDecimalPlace (80 / 100 * 100) p /\
      oneDecimalPlace 80 a /\
      oneDecimalPlace 100 b /\
      formatStatusBarText exponential snapshot1 true
      = "$(credit-card) " ++ p ++ "% ($" ++ a ++ "/$" ++ b ++ ")") /\
  formatStatusBarText exponential (assemble stats1 models1 1501) true
  = "$(credit-card) 75.0% ($7.5/$10.0)".
Proof.
  apply (formatStatusBarText_one_decimal exponential snapshot1
           {| selected := {| name := "Daily"; limitUsed := 80; limitTotal := 100 |};
              percentage := 80 / 100 * 100 |}).
  - reflexivity.
  - reflexivity.
  - reflexivity.
  - reflexivity.
Defined.

End Selection.

(** ** The display after a refresh *)

Section Display.

Local Open Scope string_scope.

(** After [showReady] and [updateTooltip], the display is Ready only
    when [updateTooltip] returned, and the tooltip is then the usage
    tooltip of the snapshot. *)
Lemma ready_after_updateTooltip numberToString config u item item' :
  (let (r, item1) :=
     updateTooltip numberToString config u (showReady (showLoading item)) in
   match r with
   | inl error => showError (messageOr "Unknown error" error) item1
   | inr _ => item1
   end) = item' ->
  displayState item' = Ready ->
  exists sections, tooltip item' = UsageTooltip sections (lastUpdate u).
Proof.
  intros H Hready.
  destruct (updateTooltip numberToString config u (showReady (showLoading item)))
    as [[e | []] item1] eqn:Hup; subst item'.
  - compute in Hready. discriminate.
  - unfold updateTooltip in Hup.
    destruct (periodSection numberToString "Daily" (daily u)) as [e | d];
      [inversion Hup | ].
    destruct (periodSection numberToString "Monthly" (monthly u)) as [e | m];
      [inversion Hup | ].
    destruct (periodSection numberToString "Total" (totalUsage u)) as [e | t];
      [inversion Hup | ].
    inversion Hup; subst; simpl.
    now exists [d; m; t].
Qed.

(** C3, as stated, fails: with a snapshot in the cache and the network
    down, [getUsageInfo] returns the fallback snapshot with the stale
    figures, and the refresh ends in the Error state, not in Ready. *)
Lemma refreshUsageData_fallback_counterexample :
  exists u w' item',
    getUsageInfo (baseUrl config1) (apiKey config1) (offline 20000 20003) cachedWorld
    = (inr u, w')
    /\ daily u = daily snapshot1
    /\ monthly u = monthly snapshot1
    /\ totalUsage u = totalUsage snapshot1
    /\ error u = Some "fetch failed"
    /\ statusBarManager
         (refreshUsageData exponential false config1 (offline 20000 20003) cachedState)
       = Some item'
    /\ displayState item' = Error
    /\ displayState item' <> Ready
    /\ tooltip item'
       = Markdown ("**CRS Status Error**" ++ newline ++ newline ++ "fetch failed").
Proof.
  exists (withSoftError snapshot1 20003 "fetch failed"),
    (logged cachedWorld [PostKeyId "https://crs.example/apiStats/api/get-key-id" "cr_key"]),
    (showError "fetch failed" (showLoading newStatusBarItem)).
  repeat split; try reflexivity. discriminate.
Qed.

(** C3, amended. A refresh whose [getUsageInfo] returns a snapshot with
    a non-empty soft error ends in the Error state, with that error's
    message as the tooltip; the stale figures are not shown.  The Ready
    state is reached only with a snapshot that carries no soft error
    (or an empty one), and its tooltip is that snapshot's. *)
Theorem refreshUsageData_soft_error_is_Error :
  forall (numberToString : Q -> string) (forceRefresh : bool) (config : Config)
         (env : Env) (st : State) (item : StatusBarItem),
    statusBarManager st = Some item ->
    isConfigured config = true ->
    let w := if forceRefresh then snd (clearCache env (usageWorld st))
             else usageWorld st in
    let st' := refreshUsageData numberToString forceRefresh config env st in
    (forall u w' msg,
        getUsageInfo (baseUrl config) (apiKey config) env w = (inr u, w') ->
        error u = Some msg -> msg <> "" ->
        st' = {| statusBarManager := Some (showError msg (showLoading item));
                 usageWorld := w' |}
        /\ displayState (showError msg (showLoading item)) = Error
        /\ tooltip (showError msg (showLoading item))
           = Markdown ("**CRS Status Error**" ++ newline ++ newline ++ msg)) /\
    (forall item',
        statusBarManager st' = Some item' ->
        displayState item' = Ready ->
        exists u w' sections,
          getUsageInfo (baseUrl config) (apiKey config) env w = (inr u, w')
          /\ (error u = None \/ error u = Some "")
          /\ tooltip item' = UsageTooltip sections (lastUpdate u)).
Proof.
  intros numberToString forceRefresh config env st item Hitem Hconf w st'.
  subst st'. unfold refreshUsageData. rewrite Hitem, Hconf.
  change (negb true) with false. cbv beta iota zeta. fold w.
  destruct (getUsageInfo (baseUrl config) (apiKey config) env w) as [[e | u] w1] eqn:Hget.
  - split.
    + intros u w' msg H. discriminate.
    + simpl. intros item' H Hready. inversion H; subst; clear H.
      compute in Hready. discriminate.
  - split.
    + intros u0 w' msg H Herr Hmsg. inversion H; subst u0 w'; clear H.
      rewrite Herr. destruct msg as [ | ch rest]; [congruence | ].
      split; [reflexivity | split; reflexivity].
    + destruct (error u) as [[ | ch rest] | ] eqn:Herr;
        simpl; intros item' H Hready; inversion H as [H1]; clear H.
      * destruct (ready_after_updateTooltip _ _ _ _ _ H1 Hready) as [sections Hs].
        exists u, w1, sections. rewrite H1. auto.
      * subst item'. compute in Hready. discriminate.
      * destruct (ready_after_updateTooltip _ _ _ _ _ H1 Hready) as [sections Hs].
        exists u, w1, sections. rewrite H1. auto.
Qed.

Lemma refreshUsageData_soft_error_is_Error_witness :
  refreshUsageData exponential false config1 (offline 20000 20003) cachedState
  = {| statusBarManager := Some (showError "fetch failed" (showLoading newStatusBarItem));
       usageWorld := logged cachedWorld
                       [PostKeyId "https://crs.example/apiStats/api/get-key-id" "cr_key"] |}
  /\ displayState (showError "fetch failed" (showLoading newStatusBarItem)) = Error
  /\ tooltip (showError "fetch failed" (showLoading newStatusBarItem))
     = Markdown ("**CRS Status Error**" ++ newline ++ newline ++ "fetch failed").
Proof.
  apply (proj1 (refreshUsageData_soft_error_is_Error
                  exponential false config1 (offline 20000 20003) cachedState
                  newStatusBarItem eq_refl eq_refl)
           (withSoftError snapshot1 20003 "fetch failed")).
  - reflexivity.
  - reflexivity.
  - discriminate.
Defined.

End Display.

(** * Further properties *)

Import Further.

(** ** More on the renderings *)

Section MoreRendering.

Local Open Scope string_scope.

Lemma string_app_assoc (a b c : string) : (a ++ b) ++ c = a ++ (b ++ c).
Proof. induction a; simpl; [reflexivity | now rewrite IHa]. Qed.

Lemma substring_skip (a b : string) n :
  substring (String.length a) n (a ++ b) = substring 0 n b.
Proof. induction a; simpl; auto. Qed.

Lemma toFixed_two_decimals numberToString x :
  Qabs x < inject_Z (10 ^ 21) ->
  twoDecimalPlaces x (toFixed numberToString x 2).
Proof.
  intros Hbig. unfold toFixed.
  set (y := if ltb x 0 then - x else x).
  assert (Hy : y == Qabs x).
  { subst y. destruct (ltb x 0) eqn:E.
    - apply ltb_lt in E. symmetry. apply Qabs_neg. lra.
    - apply ltb_ge in E. symmetry. now apply Qabs_pos. }
  assert (H0 : 0 <= y) by (rewrite Hy; apply Qabs_nonneg).
  assert (Hb : Qle_bool (inject_Z (10 ^ 21)) y = false)
    by (apply Qle_bool_false; now rewrite Hy).
  rewrite Hb.
  change (Qfloor (y * inject_Z (10 ^ Z.of_nat 2) + (1 # 2))) with (Math_round (y * 100)).
  assert (Hr : Math_round (y * 100) = Math_round (Qabs x * 100)).
  { unfold Math_round. apply Qfloor_comp. now rewrite Hy. }
  assert (Hn : (0 <= Math_round (y * 100))%Z) by (apply Math_round_nonneg; lra).
  pose proof (Math_round_near (y * 100)) as Hnear.
  set (n := Math_round (y * 100)) in *.
  exists (n / 100)%Z, ((n / 10) mod 10)%Z, (n mod 10)%Z.
  pose proof (Z.mod_pos_bound n 10 ltac:(lia)) as Hd2.
  pose proof (Z.mod_pos_bound (n / 10) 10 ltac:(lia)) as Hd1.
  pose proof (Z.div_mod n 10 ltac:(lia)) as Hdm.
  pose proof (Z.div_mod (n / 10) 10 ltac:(lia)) as Hdm1.
  assert (Hdd : (n / 10 / 10 = n / 100)%Z) by (rewrite Z.div_div by lia; reflexivity).
  rewrite Hdd in Hdm1.
  assert (Hsum : (n = 100 * (n / 100) + 10 * ((n / 10) mod 10) + n mod 10)%Z) by lia.
  split; [apply Z.div_pos; lia | ]. split; [lia | ]. split; [lia | ].
  split; [lia | ]. split.
  - rewrite Hsum, !inject_Z_plus, !inject_Z_mult in Hnear.
    change (inject_Z 10) with 10 in Hnear. change (inject_Z 100) with 100 in Hnear.
    apply Qabs_Qle_condition in Hnear. apply Qabs_Qle_condition.
    rewrite <- Hy. clearbody y n.
    generalize dependent (inject_Z (n / 100)).
    generalize dependent (inject_Z ((n / 10) mod 10)).
    generalize dependent (inject_Z (n mod 10)).
    intros c b a Hab. unfold Qdiv.
    change (/ 10) with (1 # 10). change (/ 100) with (1 # 100). split; lra.
  - cbv zeta. f_equal.
    rewrite (showZ_digit (n mod 10)), (showZ_digit ((n / 10) mod 10)) by lia.
    destruct (Z.lt_ge_cases n 10) as [Hlt | Hge].
    + rewrite (Z.div_small n 100), (Z.div_small n 10), Z.mod_0_l, (Z.mod_small n 10) by lia.
      rewrite (showZ_digit n) by lia. reflexivity.
    + rewrite (showZ_step n Hge).
      destruct (Z.lt_ge_cases n 100) as [Hlt2 | Hge2].
      * assert (Hq : (1 <= n / 10 < 10)%Z).
        { split; [apply Z.div_le_lower_bound; lia | apply Z.div_lt_upper_bound; lia]. }
        rewrite (Z.div_small n 100), (Z.mod_small (n / 10) 10) by lia.
        rewrite (showZ_digit (n / 10)) by lia. reflexivity.
      * assert (Hq : (10 <= n / 10)%Z) by (apply Z.div_le_lower_bound; lia).
        rewrite (showZ_step (n / 10) Hq), Hdd.
        rewrite string_app_assoc, !length_append, !length_digitChar.
        pose proof (length_showZ_pos (n / 100) ltac:(apply Z.div_pos; lia)) as Hlen.
        destruct (Nat.leb_spec (String.length (showZ (n / 100)) + (1 + 1)) 2) as [Hk | Hk];
          [lia | ].
        replace (String.length (showZ (n / 100)) + (1 + 1) - 2)%nat
          with (String.length (showZ (n / 100))) by lia.
        rewrite substring_prefix, substring_skip. reflexivity.
Qed.

(** *** formatCurrency and formatTokens *)

(** X1. [formatCurrency] writes a dollar sign and then the value with
    two decimal places, rounded to the nearest cent; the minus sign of a
    negative value comes after the dollar sign. *)
Theorem formatCurrency_two_decimals :
  forall (numberToString : Q -> string) (value : Q),
    Qabs value < inject_Z (10 ^ 21) ->
    exists t,
      twoDecimalPlaces value t /\ formatCurrency numberToString value = "$" ++ t.
Proof.
  intros numberToString value Hbig.
  exists (toFixed numberToString value 2). split; [ | reflexivity].
  now apply toFixed_two_decimals.
Qed.

Lemma formatCurrency_two_decimals_witness :
  exists t,
    twoDecimalPlaces (-(3.456)) t /\ formatCurrency exponential (-(3.456)) = "$" ++ t.
Proof.
  apply (formatCurrency_two_decimals exponential (-(3.456))). reflexivity.
Defined.




(** *** The bar and the compact percentage at the edges *)

Lemma ltb_comp a b c d : a == c -> b == d -> ltb a b = ltb c d.
Proof. intros H1 H2. unfold ltb. now rewrite H1, H2. Qed.

(** Below 10^21 [toFixed] depends on the value of its argument only. *)
Lemma toFixed_comp numberToString x y f :
  x == y -> Qabs x < inject_Z (10 ^ 21) ->
  toFixed numberToString x f = toFixed numberToString y f.
Proof.
  intros Hxy Hbig. unfold toFixed.
  rewrite (ltb_comp x 0 y 0 Hxy (Qeq_refl 0)).
  set (x' := if ltb y 0 then - x else x).
  set (y' := if ltb y 0 then - y else y).
  assert (Hxy' : x' == y') by (subst x' y'; destruct (ltb y 0); now rewrite Hxy).
  assert (Hx' : x' == Qabs x).
  { subst x'. destruct (ltb y 0) eqn:E.
    - apply ltb_lt in E. symmetry. apply Qabs_neg. lra.
    - apply ltb_ge in E. symmetry. apply Qabs_pos. lra. }
  assert (Hbx : Qle_bool (inject_Z (10 ^ 21)) x' = false)
    by (apply Qle_bool_false; now rewrite Hx').
  assert (Hby : Qle_bool (inject_Z (10 ^ 21)) y' = false)
    by (apply Qle_bool_false; now rewrite <- Hxy', Hx').
  rewrite Hbx, Hby.
  rewrite (Qfloor_comp (x' * inject_Z (10 ^ Z.of_nat f) + (1 # 2))
             (y' * inject_Z (10 ^ Z.of_nat f) + (1 # 2))) by (now rewrite Hxy').
  reflexivity.
Qed.

Lemma Math_min_below a : a < 1 -> Math_min a 1 = a.
Proof.
  intro H. unfold Math_min. destruct (Qle_bool a 1) eqn:E; [reflexivity | ].
  apply Qle_bool_false in E. lra.
Qed.

Lemma Math_round_negative x : (Math_round x < 0)%Z <-> x < - (1 # 2).
Proof.
  unfold Math_round. split.
  - intro H. pose proof (Qlt_floor (x + (1 # 2))) as Hhi.
    assert (Hz : inject_Z (Qfloor (x + (1 # 2)) + 1) <= 0).
    { change 0 with (inject_Z 0). rewrite <- Zle_Qle. lia. }
    lra.
  - intro H. pose proof (Qfloor_le (x + (1 # 2))) as Hlo.
    assert (Hz : inject_Z (Qfloor (x + (1 # 2))) < inject_Z 0)
      by (change (inject_Z 0) with 0; lra).
    now rewrite <- Zlt_Qlt in Hz.
Qed.

Lemma progressBar_throws :
  forall (numberToString : Q -> string) (used total : Q),
    ((exists e, generateProgressBar numberToString used total 25 = inl e) <->
     0 < total /\ used * 50 < - total) /\
    (forall e,
        generateProgressBar numberToString used total 25 = inl e ->
        e = ErrorObj ("Invalid count value: "
                      ++ showZ (Math_round (Math_min (used / total) 1 * 25))) /\
        (Math_round (Math_min (used / total) 1 * 25) < 0)%Z).
Proof.
  intros numberToString used total.
  unfold generateProgressBar.
  change (inject_Z 25) with 25.
  destruct (leb total 0) eqn:Ht.
  - apply Qle_bool_iff in Ht. split.
    + split; [intros [e He]; discriminate | intros [H _]; lra].
    + intros e He. discriminate.
  - apply Qle_bool_false in Ht.
    set (p := Math_min (used / total) 1).
    assert (Hp1 : p <= 1).
    { subst p. unfold Math_min. destruct (Qle_bool (used / total) 1) eqn:E.
      - now apply Qle_bool_iff in E.
      - lra. }
    assert (Hneg : (Math_round (p * 25) < 0)%Z <-> used * 50 < - total).
    { rewrite Math_round_negative. subst p. split.
      - intro H. assert (Hlt : used / total < 1) by
          (unfold Math_min in *; destruct (Qle_bool (used / total) 1) eqn:E;
           [apply Qle_bool_iff in E | ]; lra).
        rewrite (Math_min_below _ Hlt) in H.
        assert (Hu : used / total < - (1 # 50)) by lra.
        assert (Hm : used / total * total == used) by (field; lra).
        assert (Hmul : used / total * total < - (1 # 50) * total)
          by (apply Qmult_lt_compat_r; assumption).
        lra.
      - intro H.
        assert (Hu : used / total < - (1 # 50)).
        { apply Qlt_shift_div_r; [exact Ht | lra]. }
        rewrite Math_min_below by lra. lra. }
    unfold String_repeat.
    destruct (Z.ltb_spec (Math_round (p * 25)) 0) as [Hf | Hf].
    + split.
      * split; [intros _; split; [exact Ht | now apply Hneg] | intros _; eexists; reflexivity].
      * intros e He. inversion He. split; [reflexivity | exact Hf].
    + assert (Hle : (Math_round (p * 25) <= 25)%Z).
      { unfold Math_round.
        apply (Qfloor_resp_le (p * 25 + (1 # 2)) (25 + (1 # 2))). lra. }
      destruct (Z.ltb_spec (25 - Math_round (p * 25)) 0) as [He | He]; [lia | ].
      split.
      * split; [intros [e H]; discriminate | ].
        intros [_ H]. apply Hneg in H. lia.
      * intros e H. discriminate.
Qed.



Lemma full_bar :
  forall (numberToString : Q -> string) (used total : Q),
    0 < total -> total <= used ->
    generateProgressBar numberToString used total 25
    = inr (Some {| bar := repeatString filledGlyph 25; barText := "100.0%" |}).
Proof.
  intros numberToString used total Ht Hover.
  unfold generateProgressBar.
  assert (H : leb total 0 = false) by (now apply Qle_bool_false).
  rewrite H.
  assert (Hone : Math_min (used / total) 1 == 1).
  { apply Math_min_over. apply Qle_shift_div_l; [exact Ht | lra]. }
  set (p := Math_min (used / total) 1) in *.
  assert (Hf : Math_round (p * inject_Z 25) = 25%Z).
  { unfold Math_round. rewrite (Qfloor_comp _ (25 + (1 # 2))); [reflexivity | ].
    rewrite Hone. reflexivity. }
  rewrite Hf. simpl String_repeat. cbv iota beta.
  rewrite (toFixed_comp numberToString (p * 100) 100 1).
  - reflexivity.
  - rewrite Hone. reflexivity.
  - rewrite Hone. reflexivity.
Qed.

(** X4. Once [used] reaches a positive limit, the bar is 25 filled cells
    and its text is exactly [100.0%], whatever the excess. *)
Theorem generateProgressBar_over_limit :
  forall (numberToString : Q -> string) (used total : Q),
    0 < total -> total <= used ->
    generateProgressBar numberToString used total 25
    = inr (Some {| bar := repeatString filledGlyph 25; barText := "100.0%" |}).
Proof. exact full_bar. Qed.

Lemma generateProgressBar_over_limit_witness :
  generateProgressBar exponential 150 100 25
  = inr (Some {| bar := repeatString filledGlyph 25; barText := "100.0%" |}).
Proof.
  apply (generateProgressBar_over_limit exponential 150 100); [reflexivity | discriminate].
Defined.

(** X5. The percentage of the compact text is not capped: for a
    selected limit that is exceeded it is above 100, while the bar of
    the same period reads [100.0%]. *)
Theorem compact_percentage_not_capped :
  forall (numberToString : Q -> string) (u : UsageInfo) (c : Constrained),
    getMostConstrainedLimit u = Some c ->
    limitTotal (selected c) < limitUsed (selected c) ->
    Qabs (percentage c) < inject_Z (10 ^ 21) ->
    100 < percentage c /\
    (exists p,
        oneDecimalPlace (percentage c) p /\
        formatStatusBarText numberToString u false = "$(credit-card) " ++ p ++ "%") /\
    generateProgressBar numberToString (limitUsed (selected c)) (limitTotal (selected c)) 25
    = inr (Some {| bar := repeatString filledGlyph 25; barText := "100.0%" |}).
Proof.
  intros numberToString u c Hc Hover Hbig.
  destruct (getMostConstrainedLimit_Some u c Hc)
    as (before & after & _ & Htotal & _ & _ & Hpct).
  split; [ | split].
  - rewrite Hpct.
    assert (H : 1 < limitUsed (selected c) / limitTotal (selected c)).
    { apply Qlt_shift_div_l; [exact Htotal | lra]. }
    lra.
  - exists (toFixed numberToString (percentage c) 1). split.
    + now apply toFixed_one_decimal.
    + unfold formatStatusBarText. rewrite Hc. reflexivity.
  - apply full_bar; [exact Htotal | lra].
Qed.

Lemma compact_percentage_not_capped_witness :
  100 < 150 / 100 * 100 /\
  (exists p,
      oneDecimalPlace (150 / 100 * 100) p /\
      formatStatusBarText exponential snapshotOver false = "$(credit-card) " ++ p ++ "%") /\
  generateProgressBar exponential 150 100 25
  = inr (Some {| bar := repeatString filledGlyph 25; barText := "100.0%" |}).
Proof.
  apply (compact_percentage_not_capped exponential snapshotOver
           {| selected := {| name := "Daily"; limitUsed := 150; limitTotal := 100 |};
              percentage := 150 / 100 * 100 |}).
  - reflexivity.
  - reflexivity.
  - reflexivity.
Defined.

End MoreRendering.

(** ** More on usage.ts *)

Section UsageProtocol.

Local Open Scope string_scope.

Lemma getApiId_truthy baseUrl apiKey env w apiId w' :
  getApiId baseUrl apiKey env w = (inr apiId, w') -> truthy apiId = true.
Proof.
  unfold getApiId, bind. rewrite send_run.
  destruct (net_keyId env (baseUrl ++ "/apiStats/api/get-key-id") apiKey)
    as [e | [o st [e | [[] [[i] | ]]]]]; simpl;
    try destruct o; simpl; try destruct (truthy i) eqn:Ti; simpl;
    intro H; inversion H; subst.
  exact Ti.
Qed.

(** X6. [getApiId] sends one request whatever the answer.  It returns
    an id only from a successful envelope, and never the empty id; a
    response that is not [ok] is reported by its status, whatever its
    body says; an [ok] response whose envelope fails, lacks the data or
    carries an empty id is an invalid response. *)
Theorem getApiId_outcome :
  forall baseUrl apiKey env w,
    snd (getApiId baseUrl apiKey env w)
    = logged w [PostKeyId (keyIdUrl baseUrl) apiKey] /\
    (forall apiId,
        fst (getApiId baseUrl apiKey env w) = inr apiId ->
        apiId <> "" /\
        answers (net_keyId env (keyIdUrl baseUrl) apiKey) {| id := apiId |}) /\
    (forall st body,
        net_keyId env (keyIdUrl baseUrl) apiKey
        = inr {| ok := false; status := st; json := body |} ->
        fst (getApiId baseUrl apiKey env w)
        = inl (ErrorObj ("Failed to get API ID: " ++ showZ st))) /\
    (forall st d,
        net_keyId env (keyIdUrl baseUrl) apiKey
        = inr {| ok := true; status := st; json := inr d |} ->
        success d = false \/ data d = None \/ data d = Some {| id := "" |} ->
        fst (getApiId baseUrl apiKey env w)
        = inl (ErrorObj "Invalid response from get-key-id API")).
Proof.
  intros baseUrl apiKey env w.
  destruct (getApiId_run baseUrl apiKey env) as [r Hrun].
  split; [now rewrite Hrun | ].
  unfold getApiId, bind, keyIdUrl. rewrite send_run.
  split; [ | split].
  - intros apiId.
    destruct (net_keyId env (baseUrl ++ "/apiStats/api/get-key-id") apiKey)
      as [e | [o st [e | [[] [[i] | ]]]]]; simpl;
      try destruct o; simpl; try destruct (truthy i) eqn:Ti; simpl;
      intro H; inversion H; subst.
    split; [ | now exists st].
    intro Hempty. subst apiId. discriminate.
  - intros st body Hnet. rewrite Hnet. reflexivity.
  - intros st d Hnet Hbad. rewrite Hnet. simpl.
    destruct d as [s dt]; simpl in *.
    destruct Hbad as [-> | [-> | ->]].
    + reflexivity.
    + destruct s; reflexivity.
    + destruct s; reflexivity.
Qed.

Lemma getApiId_outcome_witness :
  fst (getApiId "https://crs.example" "cr_key" (unauthorized 1500 1501) emptyWorld)
  = inl (ErrorObj ("Failed to get API ID: " ++ showZ 401%Z)).
Proof.
  apply (proj1 (proj2 (proj2
           (getApiId_outcome "https://crs.example" "cr_key" (unauthorized 1500 1501)
              emptyWorld)))
           401%Z (inr {| success := true; data := Some {| id := "key-1" |} |})).
  reflexivity.
Defined.

Lemma getApiId_answered baseUrl apiKey env w apiId :
  truthy apiId = true ->
  answers (net_keyId env (keyIdUrl baseUrl) apiKey) {| id := apiId |} ->
  getApiId baseUrl apiKey env w
  = (inr apiId, logged w [PostKeyId (keyIdUrl baseUrl) apiKey]).
Proof.
  intros Ht [st Hnet]. unfold getApiId, bind. rewrite send_run.
  fold (keyIdUrl baseUrl). rewrite Hnet. simpl. rewrite Ht. reflexivity.
Qed.

Lemma getUserStats_answered baseUrl apiId env w stats :
  answers (net_userStats env (baseUrl ++ "/apiStats/api/user-stats") apiId) stats ->
  getUserStats baseUrl apiId env w
  = (inr stats, logged w [PostUserStats (baseUrl ++ "/apiStats/api/user-stats") apiId]).
Proof.
  intros [st Hnet]. unfold getUserStats, bind. rewrite send_run, Hnet. reflexivity.
Qed.

Lemma getUserModelStats_answered baseUrl apiId period env w models :
  answers (net_userModelStats env (baseUrl ++ "/apiStats/api/user-model-stats")
             apiId period) models ->
  getUserModelStats baseUrl apiId period env w
  = (inr models,
     logged w [PostUserModelStats (baseUrl ++ "/apiStats/api/user-model-stats")
                 apiId period]).
Proof.
  intros [st Hnet]. unfold getUserModelStats, bind. rewrite send_run, Hnet. reflexivity.
Qed.

(** X7. [fetchUsageData] returns a snapshot exactly when the three
    requests are answered by successful envelopes, the first with an id
    that is not empty; the snapshot is then the one assembled from the
    two payloads, stamped with the time of completion.  A breakdown with
    no entry is a valid answer. *)
Theorem fetchUsageData_succeeds_iff :
  forall baseUrl apiKey env w r,
    fst (fetchUsageData baseUrl apiKey env w) = inr r <->
    exists apiId stats models,
      apiId <> "" /\
      answers (net_keyId env (keyIdUrl baseUrl) apiKey) {| id := apiId |} /\
      answers (net_userStats env (baseUrl ++ "/apiStats/api/user-stats") apiId) stats /\
      answers (net_userModelStats env (baseUrl ++ "/apiStats/api/user-model-stats")
                 apiId PMonthly) models /\
      r = assemble stats models (dateSettled env).
Proof.
  intros baseUrl apiKey env w r. split.
  - intro H.
    destruct (fetchUsageData baseUrl apiKey env w) as [r0 w'] eqn:Hfetch.
    simpl in H. subst r0.
    destruct (fetchUsageData_success _ _ _ _ _ _ Hfetch)
      as (apiId & stats & models & Hk & Hs & Hm & Hr).
    exists apiId, stats, models. repeat split; auto.
    unfold fetchUsageData in Hfetch. unfold bind at 1 in Hfetch.
    destruct (getApiId baseUrl apiKey env w) as [[e | apiId'] w1] eqn:Hid;
      [inversion Hfetch | ].
    pose proof (getApiId_truthy _ _ _ _ _ _ Hid) as Ht.
    pose proof (getApiId_success _ _ _ _ _ _ Hid) as [st' Hk'].
    destruct Hk as [st Hk]. rewrite Hk in Hk'. inversion Hk'; subst.
    intro Hempty. subst. discriminate.
  - intros (apiId & stats & models & Hne & Hk & Hs & Hm & ->).
    assert (Ht : truthy apiId = true) by (destruct apiId; [congruence | reflexivity]).
    unfold fetchUsageData. unfold bind at 1.
    rewrite (getApiId_answered _ _ _ _ _ Ht Hk).
    unfold bind at 1. unfold promiseAll2, bind, settle, ask.
    rewrite (getUserStats_answered _ _ _ _ _ Hs).
    rewrite (getUserModelStats_answered _ _ _ _ _ _ Hm). reflexivity.
Qed.

Lemma fetchUsageData_succeeds_iff_witness :
  fst (fetchUsageData "https://crs.example" "cr_key" (online stats1 [] 1500 1501)
         emptyWorld)
  = inr (assemble stats1 [] 1501).
Proof.
  apply (proj2 (fetchUsageData_succeeds_iff "https://crs.example" "cr_key"
                  (online stats1 [] 1500 1501) emptyWorld (assemble stats1 [] 1501))).
  exists "key-1", stats1, [].
  split; [discriminate | ].
  split; [exists 200%Z; reflexivity | ].
  split; [exists 200%Z; reflexivity | ].
  split; [exists 200%Z; reflexivity | reflexivity].
Defined.

(** X8. What a fetch sends: the credential request alone when that step
    fails, the error being its error; otherwise the three requests in
    the order credential, user statistics, model breakdown, the last two
    with the id obtained and the breakdown for the monthly period, also
    when one of the two fails.  The cache is not touched. *)
Theorem fetchUsageData_requests :
  forall baseUrl apiKey env w,
    (exists e,
        fst (getApiId baseUrl apiKey env w) = inl e /\
        fst (fetchUsageData baseUrl apiKey env w) = inl e /\
        snd (fetchUsageData baseUrl apiKey env w)
        = logged w [PostKeyId (keyIdUrl baseUrl) apiKey])
    \/
    (exists apiId,
        fst (getApiId baseUrl apiKey env w) = inr apiId /\
        snd (fetchUsageData baseUrl apiKey env w)
        = logged w (fullFetch baseUrl apiKey apiId)).
Proof.
  intros baseUrl apiKey env w.
  destruct (getApiId_run baseUrl apiKey env) as [[e | apiId] Hid].
  - left. exists e. unfold fetchUsageData, bind. rewrite Hid. auto.
  - right. exists apiId. split; [now rewrite Hid | ].
    destruct (getUserStats_run baseUrl apiId env) as [rs Hs].
    destruct (getUserModelStats_run baseUrl apiId PMonthly env) as [rm Hm].
    destruct (promiseAll2_run _ _ _ _ env _ _ _ _ Hs Hm) as [[e | both] Hall];
      unfold fetchUsageData; unfold bind at 1; rewrite Hid;
      unfold bind at 1; rewrite Hall, logged_app; reflexivity.
Qed.

End UsageProtocol.

(** ** What the cache holds *)

Section CacheInvariant.

Local Open Scope string_scope.

Lemma fetchUsageData_fetched baseUrl apiKey env w u w' :
  fetchUsageData baseUrl apiKey env w = (inr u, w') -> fetched u.
Proof.
  intro H.
  destruct (fetchUsageData_success _ _ _ _ _ _ H) as (i & stats & models & _ & _ & _ & ->).
  now exists stats, models, (dateSettled env).
Qed.

Lemma fetched_no_error u : fetched u -> error u = None.
Proof. intros (stats & models & t & ->). reflexivity. Qed.

(** What one call of [getUsageInfo] does, by cases. *)
Lemma getUsageInfo_cases baseUrl apiKey env w :
  getUsageInfo baseUrl apiKey env w = (inl (ErrorObj "Not configured"), w)
  \/ (exists c, cachedResult w = Some c /\
                getUsageInfo baseUrl apiKey env w = (inr c, w))
  \/ (exists r l,
         fetchUsageData baseUrl apiKey env w = (r, logged w l) /\
         getUsageInfo baseUrl apiKey env w =
         match r with
         | inr u => (inr u, stored w u (dateNow env) l)
         | inl e =>
             match cachedResult w with
             | Some c =>
                 (inr (withSoftError c (dateSettled env) (messageOr "API Error" e)),
                  logged w l)
             | None => (inl e, logged w l)
             end
         end).
Proof.
  destruct (truthy baseUrl) eqn:Hb; [destruct (truthy apiKey) eqn:Hk | ].
  - destruct (fetchUsageData_run baseUrl apiKey env) as (r & l & Hrun).
    destruct (Hrun w) as [Hfetch _].
    assert (Hdec : stale w (dateNow env) \/
                   exists c, cachedResult w = Some c /\
                             (dateNow env - lastFetchTime w < CACHE_TTL_MS)%Z).
    { unfold stale. destruct (cachedResult w) as [c | ]; [ | now left].
      destruct (Z.lt_ge_cases (dateNow env - lastFetchTime w) CACHE_TTL_MS).
      - right. now exists c.
      - now left. }
    destruct Hdec as [Hst | (c & Hc & Hfresh)].
    + right. right. eexists r, _. split; [exact Hfetch | ].
      now apply getUsageInfo_refetch.
    + right. left. exists c. split; [exact Hc | now apply getUsageInfo_hit].
  - left. unfold getUsageInfo. rewrite Hb, Hk. reflexivity.
  - left. unfold getUsageInfo. rewrite Hb. reflexivity.
Qed.

Lemma cacheInvariant_getUsageInfo baseUrl apiKey env w :
  cacheInvariant w -> cacheInvariant (snd (getUsageInfo baseUrl apiKey env w)).
Proof.
  intro Hinv.
  destruct (getUsageInfo_cases baseUrl apiKey env w)
    as [H | [(c & Hc & H) | (r & l & Hfetch & H)]]; rewrite H; simpl; auto.
  destruct r as [e | u].
  - destruct (cachedResult w) eqn:Hc; simpl; unfold cacheInvariant in *;
      simpl; rewrite Hc in *; exact Hinv.
  - unfold cacheInvariant; simpl. eapply fetchUsageData_fetched; eauto.
Qed.

Lemma cacheInvariant_runCalls calls : forall w,
  cacheInvariant w -> cacheInvariant (runCalls calls w).
Proof.
  induction calls as [ | c calls IH]; intros w Hinv; [exact Hinv | ].
  simpl. apply IH. destruct c as [env | baseUrl apiKey env]; simpl.
  - reflexivity.
  - now apply cacheInvariant_getUsageInfo.
Qed.

Lemma sent_grows_runCalls calls : forall w,
  exists l, sent (runCalls calls w) = (sent w ++ l)%list.
Proof.
  induction calls as [ | c calls IH]; intro w.
  - exists []. simpl. now rewrite app_nil_r.
  - simpl. destruct (IH (runCall w c)) as [l Hl]. rewrite Hl.
    assert (Hstep : exists l0, sent (runCall w c) = (sent w ++ l0)%list).
    { destruct c as [env | baseUrl apiKey env]; simpl.
      - exists []. now rewrite app_nil_r.
      - destruct (getUsageInfo_cases baseUrl apiKey env w)
          as [H | [(c & Hc & H) | (r & l1 & Hfetch & H)]]; rewrite H; simpl.
        + exists []. now rewrite app_nil_r.
        + exists []. now rewrite app_nil_r.
        + exists l1. destruct r; [destruct (cachedResult w) | ]; reflexivity. }
    destruct Hstep as [l0 Hl0]. rewrite Hl0. exists (l0 ++ l)%list.
    now rewrite app_assoc.
Qed.

(** X9. Whatever calls of [clearCache] and [getUsageInfo] were made
    since the module was loaded, the cache holds either nothing, with
    the fetch time 0, or a snapshot built by [fetchUsageData]: never a
    soft-error copy.  The requests already sent are never forgotten. *)
Theorem cache_holds_fetched_snapshots :
  forall calls : list Call,
    cacheInvariant (runCalls calls initialWorld) /\
    (forall c,
        cachedResult (runCalls calls initialWorld) = Some c ->
        error c = None /\ total (cost (monthly c)) = 0) /\
    (forall more,
        exists l,
          sent (runCalls (calls ++ more) initialWorld)
          = (sent (runCalls calls initialWorld) ++ l)%list).
Proof.
  intro calls.
  assert (Hinv : cacheInvariant (runCalls calls initialWorld))
    by (apply cacheInvariant_runCalls; reflexivity).
  split; [exact Hinv | split].
  - intros c Hc. unfold cacheInvariant in Hinv. rewrite Hc in Hinv.
    destruct Hinv as (stats & models & t & ->). split; reflexivity.
  - intro more. unfold runCalls. rewrite fold_left_app.
    apply sent_grows_runCalls.
Qed.

(** X10. After any such calls, a snapshot that [getUsageInfo] returns
    is the one the cache holds afterwards exactly when it carries no
    soft error. *)
Theorem returned_snapshot_is_cached_iff_no_error :
  forall (calls : list Call) baseUrl apiKey env u w',
    getUsageInfo baseUrl apiKey env (runCalls calls initialWorld) = (inr u, w') ->
    (error u = None <-> cachedResult w' = Some u).
Proof.
  intros calls baseUrl apiKey env u w' Hget.
  pose proof (cacheInvariant_runCalls calls initialWorld eq_refl) as Hinv.
  pose proof (cacheInvariant_getUsageInfo baseUrl apiKey env _ Hinv) as Hinv'.
  rewrite Hget in Hinv'. simpl in Hinv'.
  set (w := runCalls calls initialWorld) in *.
  split.
  - intro Herr.
    destruct (getUsageInfo_cases baseUrl apiKey env w)
      as [H | [(c & Hc & H) | (r & l & Hfetch & H)]]; rewrite H in Hget.
    + discriminate.
    + inversion Hget; subst. exact Hc.
    + destruct r as [e | u0].
      * destruct (cachedResult w); inversion Hget; subst. discriminate.
      * inversion Hget; subst. reflexivity.
  - intro Hc. unfold cacheInvariant in Hinv'. rewrite Hc in Hinv'.
    now apply fetched_no_error.
Qed.

Lemma returned_snapshot_is_cached_iff_no_error_witness :
  error (assemble stats1 models1 1501) = None <->
  cachedResult (stored initialWorld (assemble stats1 models1 1501) 1500
                  (fullFetch "https://crs.example" "cr_key" "key-1"))
  = Some (assemble stats1 models1 1501).
Proof.
  apply (returned_snapshot_is_cached_iff_no_error
           [CallClear (offline 0 0)] "https://crs.example" "cr_key"
           (online stats1 models1 1500 1501)).
  reflexivity.
Defined.



End CacheInvariant.

(** ** More on the tooltip and on a refresh *)

Section Refresh.

Local Open Scope string_scope.

Lemma periodSection_renderable numberToString title p :
  (exists sec, periodSection numberToString title p = inr sec) <-> renderable p.
Proof.
  unfold periodSection, renderable.
  destruct (progressBar_throws numberToString (used (cost p)) (total (cost p)))
    as [Hiff _].
  destruct (generateProgressBar numberToString (used (cost p)) (total (cost p)) 25)
    as [e | pb] eqn:Hg.
  - split.
    + intros [sec H]. discriminate.
    + intro Hr. destruct (proj1 Hiff (ex_intro _ e eq_refl)) as [H1 H2].
      destruct Hr; lra.
  - split.
    + intros _.
      destruct (Qlt_le_dec 0 (total (cost p))) as [Hpos | Hnp]; [ | now left].
      right. destruct (Qlt_le_dec (used (cost p) * 50) (- total (cost p))) as [Hlt | Hge];
        [ | exact Hge].
      destruct (proj2 Hiff (conj Hpos Hlt)) as [e He]. discriminate.
    + intros _. eexists. reflexivity.
Qed.

Lemma periodSection_fields numberToString title p sec :
  periodSection numberToString title p = inr sec ->
  StatusBar.title sec = title /\
  tokensText sec = formatTokens numberToString (tokens p) /\
  (total (cost p) <= 0 ->
   headline sec = "Unlimited" /\ barRow sec = None /\
   costText sec = formatCurrency numberToString (used (cost p))) /\
  (0 < total (cost p) ->
   barRow sec <> None /\
   costText sec = formatCurrency numberToString (used (cost p)) ++ " / "
                  ++ formatCurrency numberToString (total (cost p))).
Proof.
  unfold periodSection.
  destruct (generateProgressBar numberToString (used (cost p)) (total (cost p)) 25)
    as [e | pb] eqn:Hg; [discriminate | ].
  intro H. inversion H; subst; clear H. simpl.
  split; [reflexivity | split; [reflexivity | split]].
  - intro Hle.
    assert (Hg0 : gtb (total (cost p)) 0 = false) by (now apply gtb_le).
    rewrite Hg0. unfold generateProgressBar in Hg.
    assert (Hl : leb (total (cost p)) 0 = true) by (now apply Qle_bool_iff).
    rewrite Hl in Hg. inversion Hg. auto.
  - intro Hpos.
    assert (Hg0 : gtb (total (cost p)) 0 = true) by (now apply gtb_gt).
    rewrite Hg0. split; [ | reflexivity].
    unfold generateProgressBar in Hg.
    assert (Hl : leb (total (cost p)) 0 = false) by (now apply Qle_bool_false).
    rewrite Hl in Hg.
    destruct (String_repeat filledGlyph _); [discriminate | ].
    destruct (String_repeat emptyGlyph _); [discriminate | ].
    inversion Hg. discriminate.
Qed.

Lemma updateTooltip_run numberToString config u item :
  let item1 :=
    {| text := if showUsageInStatusBar config
               then formatStatusBarText numberToString u (showAmountInStatusBar config)
               else "$(credit-card)";
       tooltip := tooltip item;
       backgroundColor := None;
       command := command item |} in
  (renderableSnapshot u /\
   exists d m t,
     periodSection numberToString "Daily" (daily u) = inr d /\
     periodSection numberToString "Monthly" (monthly u) = inr m /\
     periodSection numberToString "Total" (totalUsage u) = inr t /\
     updateTooltip numberToString config u item
     = (inr tt, {| text := text item1;
                   tooltip := UsageTooltip [d; m; t] (lastUpdate u);
                   backgroundColor := None;
                   command := command item |}))
  \/
  (~ renderableSnapshot u /\
   exists e, updateTooltip numberToString config u item = (inl e, item1)).
Proof.
  intro item1. unfold updateTooltip. fold item1. unfold renderableSnapshot.
  pose proof (periodSection_renderable numberToString "Daily" (daily u)) as Hd.
  pose proof (periodSection_renderable numberToString "Monthly" (monthly u)) as Hm.
  pose proof (periodSection_renderable numberToString "Total" (totalUsage u)) as Ht.
  destruct (periodSection numberToString "Daily" (daily u)) as [e | d].
  - right. split; [ | now exists e].
    intros [H _]. apply Hd in H. destruct H; discriminate.
  - destruct (periodSection numberToString "Monthly" (monthly u)) as [e | m].
    + right. split; [ | now exists e].
      intros (_ & H & _). apply Hm in H. destruct H; discriminate.
    + destruct (periodSection numberToString "Total" (totalUsage u)) as [e | t].
      * right. split; [ | now exists e].
        intros (_ & _ & H). apply Ht in H. destruct H; discriminate.
      * left. split.
        -- repeat split; [apply Hd | apply Hm | apply Ht]; eexists; reflexivity.
        -- exists d, m, t. auto.
Qed.



(** The text of the compact display is never one of the texts the other
    states write. *)
Lemma formatStatusBarText_head numberToString u showAmount :
  exists rest,
    formatStatusBarText numberToString u showAmount = "$(credit-card)" ++ rest.
Proof.
  unfold formatStatusBarText. destruct (getMostConstrainedLimit u) as [c | ].
  - destruct showAmount; simpl; eexists; reflexivity.
  - exists EmptyString. reflexivity.
Qed.

Lemma displayState_usage t sections time bg cmd :
  (exists rest, t = "$(credit-card)" ++ rest) ->
  displayState {| text := t; tooltip := UsageTooltip sections time;
                  backgroundColor := bg; command := cmd |} = Ready.
Proof.
  intros [rest ->]. reflexivity.
Qed.

(** How a refresh of a configured extension ends, by cases on what
    [getUsageInfo] and [updateTooltip] do. *)
Lemma refreshUsageData_configured numberToString (forceRefresh : bool) config env st item :
  statusBarManager st = Some item ->
  isConfigured config = true ->
  let w := if forceRefresh then snd (clearCache env (usageWorld st))
           else usageWorld st in
  let outcome := getUsageInfo (baseUrl config) (apiKey config) env w in
  refreshUsageData numberToString forceRefresh config env st
  = {| statusBarManager :=
         Some match fst outcome with
              | inl error => showError (messageOr "Unknown error" error) (showLoading item)
              | inr u =>
                  match error u with
                  | Some (String c m) => showError (String c m) (showLoading item)
                  | _ =>
                      let r := updateTooltip numberToString (display config) u
                                 (showReady (showLoading item)) in
                      match fst r with
                      | inl error => showError (messageOr "Unknown error" error) (snd r)
                      | inr _ => snd r
                      end
                  end
              end;
       usageWorld := snd outcome |}.
Proof.
  intros Hitem Hconf w outcome. subst outcome.
  unfold refreshUsageData. rewrite Hitem, Hconf.
  change (negb true) with false. cbv beta iota zeta. fold w.
  destruct (getUsageInfo (baseUrl config) (apiKey config) env w) as [[e | u] w1];
    simpl; [reflexivity | ].
  destruct (error u) as [[ | c m] | ]; simpl; try reflexivity;
    destruct (updateTooltip numberToString (display config) u
                (showReady (showLoading item))) as [[e | []] item1]; reflexivity.
Qed.


End Refresh.

Section RefreshScenarios.

Local Open Scope string_scope.


(** X14. Without valid settings a refresh, forced or not, only shows
    the configuration notice and makes the item open the settings: the
    cache is kept and nothing is sent.  The notice's command stays on
    the item as long as refreshes fail: a later refresh with valid
    settings whose [getUsageInfo] throws ends in the Error state with
    the command still opening the settings, not refreshing. *)
Theorem refreshUsageData_keeps_settings_command :
  forall (numberToString : Q -> string) (force1 force2 : bool) (config0 config : Config)
         (env0 env : Env) (st : State) (item : StatusBarItem) (e : Thrown),
    statusBarManager st = Some item ->
    isConfigured config0 = false ->
    isConfigured config = true ->
    fst (getUsageInfo (baseUrl config) (apiKey config) env
           (if force2 then snd (clearCache env (usageWorld st)) else usageWorld st))
    = inl e ->
    let st1 := refreshUsageData numberToString force1 config0 env0 st in
    let st2 := refreshUsageData numberToString force2 config env st1 in
    st1 = {| statusBarManager := Some (showConfigRequired item);
             usageWorld := usageWorld st |} /\
    displayState (showConfigRequired item) = Unconfigured /\
    exists item2,
      statusBarManager st2 = Some item2 /\
      displayState item2 = Error /\
      command item2 = "crsStatus.openSettings" /\
      tooltip item2
      = Markdown ("**CRS Status Error**" ++ newline ++ newline
                  ++ messageOr "Unknown error" e).
Proof.
  intros numberToString force1 force2 config0 config env0 env st item e
         Hitem Hc0 Hc Hget st1 st2.
  assert (H1 : st1 = {| statusBarManager := Some (showConfigRequired item);
                        usageWorld := usageWorld st |}).
  { subst st1. unfold refreshUsageData. rewrite Hitem, Hc0. reflexivity. }
  split; [exact H1 | split; [reflexivity | ]].
  subst st2. rewrite H1.
  rewrite (refreshUsageData_configured numberToString force2 config env
             {| statusBarManager := Some (showConfigRequired item);
                usageWorld := usageWorld st |}
             (showConfigRequired item) eq_refl Hc).
  simpl usageWorld. rewrite Hget. simpl.
  eexists. split; [reflexivity | ]. repeat split.
Qed.

Lemma refreshUsageData_keeps_settings_command_witness :
  let st1 := refreshUsageData exponential true
               {| baseUrl := ""; apiKey := ""; refreshInterval := 60;
                  display := display config1 |}
               (offline 1 2) cachedState in
  let st2 := refreshUsageData exponential true config1 (offline 3 4) st1 in
  st1 = {| statusBarManager := Some (showConfigRequired newStatusBarItem);
           usageWorld := usageWorld cachedState |} /\
  displayState (showConfigRequired newStatusBarItem) = Unconfigured /\
  exists item2,
    statusBarManager st2 = Some item2 /\
    displayState item2 = Error /\
    command item2 = "crsStatus.openSettings" /\
    tooltip item2
    = Markdown ("**CRS Status Error**" ++ newline ++ newline
                ++ messageOr "Unknown error" (ErrorObj "fetch failed")).
Proof.
  apply (refreshUsageData_keeps_settings_command exponential true true
           {| baseUrl := ""; apiKey := ""; refreshInterval := 60;
              display := display config1 |}
           config1 (offline 1 2) (offline 3 4) cachedState newStatusBarItem
           (ErrorObj "fetch failed")).
  - reflexivity.
  - reflexivity.
  - reflexivity.
  - reflexivity.
Defined.

Lemma nonnegativePeriod_renderable p : nonnegativePeriod p -> renderable p.
Proof.
  intros (Hu & Ht & _). unfold renderable.
  destruct (Qlt_le_dec 0 (total (cost p))); [right; lra | now left].
Qed.

(** X15. The snapshots the client builds never have a monthly limit:
    the most constrained limit of such a snapshot is the daily or the
    total one, never the monthly one, and the Monthly block of the
    tooltip always reads Unlimited with the cost alone. *)
Theorem monthly_is_never_limited :
  forall (numberToString : Q -> string) (u : UsageInfo),
    fetched u ->
    (forall c,
        getMostConstrainedLimit u = Some c ->
        name (selected c) = "Daily" \/ name (selected c) = "Total") /\
    exists section,
      periodSection numberToString "Monthly" (monthly u) = inr section /\
      headline section = "Unlimited" /\ barRow section = None /\
      costText section = formatCurrency numberToString (used (cost (monthly u))).
Proof.
  intros numberToString u (stats & models & t & ->). split.
  - intros c Hc.
    destruct (getMostConstrainedLimit_Some _ c Hc) as (before & after & Hf & _).
    assert (Hin : In (selected c)
                    (filter configured (periods (assemble stats models t)))).
    { rewrite Hf. apply in_or_app. right. now left. }
    apply filter_In in Hin. destruct Hin as [Hin Hconf].
    simpl in Hin. destruct Hin as [H | [H | [H | []]]]; rewrite <- H in *; auto.
    compute in Hconf. discriminate.
  - assert (Hr : renderable (monthly (assemble stats models t)))
      by (left; apply Qle_refl).
    apply (periodSection_renderable numberToString "Monthly") in Hr.
    destruct Hr as [section Hs]. exists section. split; [exact Hs | ].
    apply periodSection_fields in Hs.
    destruct Hs as (_ & _ & Hzero & _).
    destruct (Hzero (Qle_refl 0)) as (H1 & H2 & H3). auto.
Qed.

Lemma monthly_is_never_limited_witness :
  (forall c,
      getMostConstrainedLimit (assemble stats1 models1 1501) = Some c ->
      name (selected c) = "Daily" \/ name (selected c) = "Total") /\
  exists section,
    periodSection exponential "Monthly" (monthly (assemble stats1 models1 1501))
    = inr section /\
    headline section = "Unlimited" /\ barRow section = None /\
    costText section
    = formatCurrency exponential (used (cost (monthly (assemble stats1 models1 1501)))).
Proof.
  apply (monthly_is_never_limited exponential (assemble stats1 models1 1501)).
  exists stats1, models1, 1501%Z. reflexivity.
Defined.

(** X16. A forced refresh of a configured extension whose service
    answers the three requests with payloads free of negative numbers
    ends in the Ready state: the tooltip carries the time of this fetch
    and the snapshot assembled from the payloads is the cached one. *)
Theorem forced_refresh_shows_fetched_snapshot :
  forall (numberToString : Q -> string) (config : Config) (env : Env) (st : State)
         (item : StatusBarItem) (apiId : string) (stats : UserStatsData)
         (models : list ModelStatsData),
    statusBarManager st = Some item ->
    isConfigured config = true ->
    apiId <> "" ->
    answers (net_keyId env (keyIdUrl (baseUrl config)) (apiKey config)) {| id := apiId |} ->
    answers (net_userStats env (baseUrl config ++ "/apiStats/api/user-stats") apiId)
      stats ->
    answers (net_userModelStats env (baseUrl config ++ "/apiStats/api/user-model-stats")
               apiId PMonthly) models ->
    nonnegativeStats stats ->
    Forall nonnegativeModel models ->
    let st' := refreshUsageData numberToString true config env st in
    exists item' sections,
      statusBarManager st' = Some item' /\
      displayState item' = Ready /\
      tooltip item' = UsageTooltip sections (dateSettled env) /\
      command item' = "crsStatus.refresh" /\
      cachedResult (usageWorld st')
      = Some (assemble stats models (dateSettled env)) /\
      lastFetchTime (usageWorld st') = dateNow env /\
      sent (usageWorld st')
      = (sent (usageWorld st)
         ++ fullFetch (baseUrl config) (apiKey config) apiId)%list.
Proof.
  intros numberToString config env st item apiId stats models
         Hitem Hconf Hid Hk Hs Hm Hns Hnm st'.
  set (u := assemble stats models (dateSettled env)).
  set (w0 := snd (clearCache env (usageWorld st))).
  assert (Hb : truthy (baseUrl config) = true /\ truthy (apiKey config) = true).
  { unfold isConfigured in Hconf. apply andb_true_iff in Hconf.
    destruct Hconf as [H1 H2].
    destruct (baseUrl config), (apiKey config); simpl in *; try discriminate; auto. }
  destruct Hb as [Hb Hkey].
  assert (Ht : truthy apiId = true) by (destruct apiId; [congruence | reflexivity]).
  assert (Hfetch : fetchUsageData (baseUrl config) (apiKey config) env w0
                   = (inr u, logged w0 (fullFetch (baseUrl config) (apiKey config) apiId))).
  { unfold fetchUsageData. unfold bind at 1.
    rewrite (getApiId_answered _ _ _ _ _ Ht Hk).
    unfold bind at 1. unfold promiseAll2, bind, settle, ask.
    rewrite (getUserStats_answered _ _ _ _ _ Hs).
    rewrite (getUserModelStats_answered _ _ _ _ _ _ Hm).
    simpl. rewrite !logged_app. reflexivity. }
  assert (Hget : getUsageInfo (baseUrl config) (apiKey config) env w0
                 = (inr u, stored w0 u (dateNow env)
                             (fullFetch (baseUrl config) (apiKey config) apiId))).
  { assert (Hst : stale w0 (dateNow env)) by (apply stale_cases; left; reflexivity).
    rewrite (getUsageInfo_refetch _ _ _ _ _ _ Hb Hkey Hst Hfetch). reflexivity. }
  assert (Hnn : nonnegative u).
  { destruct Hns as (H1 & H2 & H3 & H4 & H5).
    destruct (monthlyTotalsOf_sums models) as [Hc Htk].
    unfold nonnegative, nonnegativePeriod; subst u; simpl.
    rewrite !orZeroQ_value, accountTokens_spec, Hc, Htk.
    repeat split; auto; try apply Qle_refl.
    - apply sumQ_nonneg. apply Forall_map.
      eapply Forall_impl; [ | exact Hnm]. now intros m [Hm1 _].
    - apply sumZ_nonneg. apply Forall_map.
      eapply Forall_impl; [ | exact Hnm]. now intros m [_ Hm2]. }
  assert (Hren : renderableSnapshot u).
  { destruct Hnn as (H1 & H2 & H3).
    repeat split; now apply nonnegativePeriod_renderable. }
  subst st'.
  rewrite (refreshUsageData_configured numberToString true config env st item Hitem Hconf).
  fold w0. rewrite Hget. simpl fst. simpl snd.
  change (error u) with (@None string). cbv beta iota zeta.
  destruct (updateTooltip_run numberToString (display config) u
              (showReady (showLoading item)))
    as [(_ & d & m & t & _ & _ & _ & Hrun) | (Hn & _)]; [ | contradiction].
  rewrite Hrun. simpl.
  eexists _, [d; m; t]. split; [reflexivity | ].
  split; [ | repeat split].
  apply displayState_usage.
  destruct (showUsageInStatusBar (display config)).
  - apply formatStatusBarText_head.
  - exists EmptyString. reflexivity.
Qed.

Lemma forced_refresh_shows_fetched_snapshot_witness :
  let st' := refreshUsageData exponential true config1 (online stats1 models1 1500 1501)
               cachedState in
  exists item' sections,
    statusBarManager st' = Some item' /\
    displayState item' = Ready /\
    tooltip item' = UsageTooltip sections 1501%Z /\
    command item' = "crsStatus.refresh" /\
    cachedResult (usageWorld st') = Some (assemble stats1 models1 1501) /\
    lastFetchTime (usageWorld st') = 1500%Z /\
    sent (usageWorld st')
    = (sent (usageWorld cachedState)
       ++ fullFetch (baseUrl config1) (apiKey config1) "key-1")%list.
Proof.
  apply (forced_refresh_shows_fetched_snapshot exponential config1
           (online stats1 models1 1500 1501) cachedState newStatusBarItem
           "key-1" stats1 models1).
  - reflexivity.
  - reflexivity.
  - discriminate.
  - exists 200%Z. reflexivity.
  - exists 200%Z. reflexivity.
  - exists 200%Z. reflexivity.
  - unfold nonnegativeStats; simpl. repeat split; discriminate.
  - repeat constructor; simpl; discriminate.
Defined.

End RefreshScenarios.

(** ** Timers, activation and deactivation *)

Section Timers.

Import Lifecycle.
Local Open Scope string_scope.

Variable numberToString : Q -> string.

Lemma cacheInvariant_refreshUsageData forceRefresh config env st :
  cacheInvariant (usageWorld st) ->
  cacheInvariant
    (usageWorld (refreshUsageData numberToString forceRefresh config env st)).
Proof.
  intro Hinv.
  destruct (statusBarManager st) as [item | ] eqn:Hitem;
    [destruct (isConfigured config) eqn:Hconf | ].
  - rewrite (refreshUsageData_configured numberToString forceRefresh config env st item
               Hitem Hconf).
    simpl usageWorld. apply cacheInvariant_getUsageInfo.
    destruct forceRefresh; [reflexivity | exact Hinv].
  - unfold refreshUsageData. rewrite Hitem, Hconf. exact Hinv.
  - unfold refreshUsageData. rewrite Hitem. exact Hinv.
Qed.

Lemma clearInterval_single handle ms :
  clearInterval handle [{| timerId := handle; intervalMs := ms |}] = [].
Proof. unfold clearInterval; simpl. now rewrite Nat.eqb_refl. Qed.

Lemma runtimeInvariant_refresh forceRefresh env r :
  runtimeInvariant r -> runtimeInvariant (refresh numberToString forceRefresh env r).
Proof.
  intros [Ht Hc]. split; [exact Ht | ].
  simpl. now apply cacheInvariant_refreshUsageData.
Qed.

Lemma runtimeInvariant_setupAutoRefresh r :
  runtimeInvariant r -> runtimeInvariant (setupAutoRefresh r).
Proof.
  intros [Ht Hc]. split; [ | exact Hc].
  unfold setupAutoRefresh; simpl.
  destruct (refreshIntervalVar r) as [h | ].
  - destruct Ht as [Ht _]. rewrite Ht, clearInterval_single. split; [reflexivity | lia].
  - rewrite Ht. split; [reflexivity | lia].
Qed.

Lemma runtimeInvariant_step r ev :
  runtimeInvariant r -> runtimeInvariant (step numberToString r ev).
Proof.
  intro Hinv. destruct ev as [env | | env | [s | ] env | env]; simpl.
  - unfold activate; simpl. destruct (isConfigured (settings r)).
    + apply runtimeInvariant_refresh.
      apply (runtimeInvariant_setupAutoRefresh
               {| state := {| statusBarManager := Some newStatusBarItem;
                              usageWorld := usageWorld (state r) |};
                  refreshIntervalVar := refreshIntervalVar r;
                  timers := timers r;
                  nextTimerId := nextTimerId r;
                  settings := settings r |}).
      exact Hinv.
    + exact Hinv.
  - destruct Hinv as [Ht Hc]. split; [ | exact Hc]. simpl.
    destruct (refreshIntervalVar r) as [h | ].
    + destruct Ht as [Ht _]. rewrite Ht. apply clearInterval_single.
    + exact Ht.
  - now apply runtimeInvariant_refresh.
  - apply runtimeInvariant_refresh.
    destruct Hinv as [Ht Hc].
    split; [ | exact Hc]. unfold setupAutoRefresh; simpl.
    destruct (refreshIntervalVar r) as [h | ].
    + destruct Ht as [Ht _]. rewrite Ht, clearInterval_single. split; [reflexivity | lia].
    + rewrite Ht. split; [reflexivity | lia].
  - exact Hinv.
  - now apply runtimeInvariant_refresh.
Qed.

Lemma runtimeInvariant_run events : forall r,
  runtimeInvariant r -> runtimeInvariant (run numberToString events r).
Proof.
  induction events as [ | ev events IH]; intros r Hinv; [exact Hinv | ].
  simpl. apply IH. now apply runtimeInvariant_step.
Qed.

(** X17. Whatever happens to the extension (activation, refresh
    command, change of settings, elapsed interval, deactivation, in any
    order), the host runs at most one interval for it: the one whose
    handle the module remembers, with a period of 1000 times the
    [refreshInterval] of the current settings; and the cache keeps its
    invariant. *)
Theorem at_most_one_interval :
  forall (s : Config) (events : list Event),
    let r := run numberToString events (initialRuntime s) in
    (List.length (timers r) <= 1)%nat /\
    (forall t,
        In t (timers r) ->
        refreshIntervalVar r = Some (timerId t) /\
        intervalMs t = (refreshInterval (settings r) * 1000)%Z) /\
    (refreshIntervalVar r = None -> timers r = []) /\
    cacheInvariant (usageWorld (state r)).
Proof.
  intros s events r.
  assert (Hinv : runtimeInvariant r).
  { subst r. apply runtimeInvariant_run. split; reflexivity. }
  destruct Hinv as [Ht Hc].
  destruct (refreshIntervalVar r) as [h | ] eqn:Hh.
  - destruct Ht as [Ht _]. rewrite Ht. simpl. repeat split; auto.
    + destruct H as [<- | []]. reflexivity.
    + destruct H as [<- | []]. reflexivity.
    + discriminate.
  - rewrite Ht. simpl. repeat split; auto; try lia; contradiction.
Qed.

(** X18. After [deactivate], reached from any history, no interval is
    left running and the status bar manager is gone, so that a refresh
    requested later does nothing at all. *)
Theorem deactivate_stops_everything :
  forall (s : Config) (events : list Event),
    let r := deactivate (run numberToString events (initialRuntime s)) in
    timers r = [] /\
    refreshIntervalVar r = None /\
    statusBarManager (state r) = None /\
    (forall forceRefresh env, refresh numberToString forceRefresh env r = r).
Proof.
  intros s events r.
  assert (Hinv : runtimeInvariant (run numberToString events (initialRuntime s))).
  { apply runtimeInvariant_run. split; reflexivity. }
  destruct Hinv as [Ht _]. subst r. unfold deactivate; simpl.
  split; [ | split; [reflexivity | split; [reflexivity | ]]].
  - destruct (refreshIntervalVar (run numberToString events (initialRuntime s)))
      as [h | ].
    + destruct Ht as [Ht _]. rewrite Ht. apply clearInterval_single.
    + exact Ht.
  - intros forceRefresh env. reflexivity.
Qed.

End Timers.
